(** * Hadith Hub: the document store and its search engine

    A shallow embedding of the text normalisation, transliteration, search,
    import, delete and caching code of the application
    ([src/App.tsx], [src/workers/search.worker.ts],
    [src/hooks/useSearchWorker.ts] and the performance utilities), followed
    by the properties of that code.

    JavaScript strings are sequences of UTF-16 code units; every regular
    expression of the modelled code is written without the [u] flag, so it
    works on code units as well.  A string is therefore a [list N]. *)

From Stdlib Require Import ZArith NArith Ascii String Lia.
From stdpp Require Import gmap list fin_maps sorting.

Local Open Scope Z_scope.
#[local] Set Warnings "-clear-no-such-hyp".

(* ===================================================================== *)
(** * Part I: the model                                                   *)
(* ===================================================================== *)

(** ** JavaScript strings *)

Abbreviation jsstring := (list N).

Module JS.

(** Source literals are written in this file as UTF-8 text and decoded to
    UTF-16 code units, the way the TypeScript compiler reads them. *)
Fixpoint utf16_of_utf8 (bs : list N) : jsstring :=
  match bs with
  | [] => []
  | b0 :: r =>
    if (b0 <? 0x80)%N then b0 :: utf16_of_utf8 r
    else if (b0 <? 0xE0)%N then
      match r with
      | b1 :: r1 => ((b0 mod 0x20) * 0x40 + b1 mod 0x40)%N :: utf16_of_utf8 r1
      | _ => []
      end
    else if (b0 <? 0xF0)%N then
      match r with
      | b1 :: b2 :: r2 =>
        ((b0 mod 0x10) * 0x1000 + (b1 mod 0x40) * 0x40 + b2 mod 0x40)%N
          :: utf16_of_utf8 r2
      | _ => []
      end
    else
      match r with
      | b1 :: b2 :: b3 :: r3 =>
        let cp := ((b0 mod 0x08) * 0x40000 + (b1 mod 0x40) * 0x1000
                   + (b2 mod 0x40) * 0x40 + b3 mod 0x40)%N in
        let v := (cp - 0x10000)%N in
        (0xD800 + v / 0x400)%N :: (0xDC00 + v mod 0x400)%N :: utf16_of_utf8 r3
      | _ => []
      end
  end.

Definition lit (s : string) : jsstring :=
  utf16_of_utf8 (List.map N_of_ascii (list_ascii_of_string s)).
Arguments lit s%_string.

(** [s.length] *)
Definition len (s : jsstring) : Z := Z.of_nat (length s).

(** [pat] occurs at the very start of [s]. *)
Fixpoint startsWith (pat s : jsstring) : bool :=
  match pat, s with
  | [], _ => true
  | _ :: _, [] => false
  | p :: pat', c :: s' => (p =? c)%N && startsWith pat' s'
  end.

(** The scan of [String.prototype.indexOf]: [s] is the suffix of the
    receiver that starts at offset [k]. *)
Fixpoint indexOfFrom (pat s : jsstring) (k : Z) : Z :=
  if startsWith pat s then k
  else match s with
       | [] => -1
       | _ :: s' => indexOfFrom pat s' (k + 1)
       end.

(** [s.indexOf(pat, pos)]: the position is clamped to [0 .. s.length]; the
    result is the least index not before it where [pat] occurs, else -1. *)
Definition indexOf (s pat : jsstring) (pos : Z) : Z :=
  let start := Z.min (Z.max pos 0) (len s) in
  indexOfFrom pat (drop (Z.to_nat start) s) start.

(** [pat] occurs somewhere in [s]. *)
Definition contains (s pat : jsstring) : Prop :=
  exists pre post, s = pre ++ pat ++ post.

(** [s.substring(a, b)]: both ends are clamped to [0 .. s.length] and
    swapped when out of order. *)
Definition substring (s : jsstring) (a b : Z) : jsstring :=
  let a' := Z.min (Z.max a 0) (len s) in
  let b' := Z.min (Z.max b 0) (len s) in
  let lo := Z.min a' b' in
  let hi := Z.max a' b' in
  take (Z.to_nat (hi - lo)) (drop (Z.to_nat lo) s).

(** [s.replace(/[class]/g, repl)] for a character class: every code unit
    of the class is replaced, the others are kept. *)
Fixpoint replaceClass (cls : N -> bool) (repl : jsstring) (s : jsstring)
  : jsstring :=
  match s with
  | [] => []
  | c :: s' =>
    (if cls c then repl else [c]) ++ replaceClass cls repl s'
  end.

(** White space and line terminators, the code units [trim] strips. *)
Definition isWhiteSpace (c : N) : bool :=
  ((c =? 0x09) || (c =? 0x0A) || (c =? 0x0B) || (c =? 0x0C) || (c =? 0x0D)
   || (c =? 0x20) || (c =? 0xA0) || (c =? 0x1680)
   || ((0x2000 <=? c) && (c <=? 0x200A))
   || (c =? 0x2028) || (c =? 0x2029) || (c =? 0x202F) || (c =? 0x205F)
   || (c =? 0x3000) || (c =? 0xFEFF))%N.

Fixpoint trimStart (s : jsstring) : jsstring :=
  match s with
  | c :: s' => if isWhiteSpace c then trimStart s' else s
  | [] => []
  end.

(** [s.trim()] *)
Definition trim (s : jsstring) : jsstring :=
  rev (trimStart (rev (trimStart s))).

(** ASCII part of [toLowerCase] / of the case folding of an [i] regular
    expression.  Code units outside [A-Z] are left alone: the Latin input
    of the transliteration is ASCII, and Arabic letters have no case. *)
Definition lowerUnit (c : N) : N :=
  if ((0x41 <=? c) && (c <=? 0x5A))%N then (c + 0x20)%N else c.

Definition toLowerCase (s : jsstring) : jsstring := List.map lowerUnit s.

(** [pat] matches at the start of [s], ignoring ASCII case. *)
Fixpoint startsWithCI (pat s : jsstring) : bool :=
  match pat, s with
  | [], _ => true
  | _ :: _, [] => false
  | p :: pat', c :: s' => (lowerUnit p =? lowerUnit c)%N && startsWithCI pat' s'
  end.

(** [s.replace(new RegExp(key, 'gi'), repl)] for a non-empty key without
    regular expression metacharacters: left-to-right, non-overlapping
    occurrences of [key] are replaced.  [skip] counts the code units of the current
    match that are still to be consumed. *)
Fixpoint replaceAllCI_go (key repl s : jsstring) (skip : nat) : jsstring :=
  match s with
  | [] => []
  | c :: s' =>
    match skip with
    | S k => replaceAllCI_go key repl s' k
    | O =>
      if startsWithCI key s
      then repl ++ replaceAllCI_go key repl s' (length key - 1)
      else c :: replaceAllCI_go key repl s' 0
    end
  end.

Definition replaceAllCI (key repl s : jsstring) : jsstring :=
  replaceAllCI_go key repl s 0.

(** [s.replace(pat, repl)] with a string pattern: the first occurrence. *)
Definition replaceFirst (s pat repl : jsstring) : jsstring :=
  let i := indexOf s pat 0 in
  if i =? -1 then s
  else take (Z.to_nat i) s ++ repl ++ drop (Z.to_nat i + length pat) s.

(** Numbers that [Math.max] can return: it answers [-Infinity] for no
    arguments. *)
Inductive num := NegInfinity | Num (z : Z).

Definition max2 (a b : num) : num :=
  match a, b with
  | NegInfinity, _ => b
  | _, NegInfinity => a
  | Num x, Num y => Num (Z.max x y)
  end.

(** [Math.max(...zs)] *)
Definition Math_max (zs : list Z) : num :=
  foldr (fun z acc => max2 (Num z) acc) NegInfinity zs.

(** Truthiness of a string: the empty string is falsy. *)
Definition truthy (s : jsstring) : bool :=
  match s with [] => false | _ => true end.

(** [a || b] on strings. *)
Definition orElse (a b : jsstring) : jsstring := if truthy a then a else b.

(** [a || b] where [a] may be [undefined]. *)
Definition orElseUndefined (a : option jsstring) (b : jsstring) : jsstring :=
  match a with Some a => orElse a b | None => b end.

(** [new Map(entries).get(key)]: of two entries with one key the later
    one sets the value. *)
Fixpoint Map_get (entries : list (jsstring * jsstring)) (key : jsstring)
  : option jsstring :=
  match entries with
  | [] => None
  | (k, v) :: rest =>
    match Map_get rest key with
    | Some later => Some later
    | None => if bool_decide (k = key) then Some v else None
    end
  end.

End JS.

(** ** The JavaScript runtime around the text

    [JSON.parse], [Array.isArray], [Array.prototype.join] and [String] are
    services of the platform.  The code is modelled over any runtime that
    provides them; [JSON_parse] answers [None] where [JSON.parse] throws. *)

Class JSONRuntime := {
  JSValue : Type;
  JSON_parse : jsstring -> option JSValue;
  Array_isArray : JSValue -> bool;
  Array_join : JSValue -> jsstring -> jsstring;
  String_of : JSValue -> jsstring
}.

(** A runtime for the page files of the archives, which hold an array of
    string literals: [JSON.parse] restricted to such arrays, the literals
    free of escapes.  Any other text is rejected, as a text that is not
    JSON at all is.  The concrete examples below run on it; the
    properties hold for every runtime. *)
Module PageFiles.

Inductive state := Start | First | Elem | InStr | After | Done.

Definition isJSONSpace (c : N) : bool :=
  ((c =? 0x20) || (c =? 0x09) || (c =? 0x0A) || (c =? 0x0D))%N.

Fixpoint scan (st : state) (cur : jsstring) (acc : list jsstring)
    (s : jsstring) : option (list jsstring) :=
  match s with
  | [] => match st with Done => Some (rev acc) | _ => None end
  | c :: s' =>
    match st with
    | Start =>
      if isJSONSpace c then scan Start cur acc s'
      else if (c =? 0x5B)%N then scan First cur acc s' else None
    | First =>
      if isJSONSpace c then scan First cur acc s'
      else if (c =? 0x5D)%N then scan Done cur acc s'
      else if (c =? 0x22)%N then scan InStr [] acc s' else None
    | Elem =>
      if isJSONSpace c then scan Elem cur acc s'
      else if (c =? 0x22)%N then scan InStr [] acc s' else None
    | InStr =>
      if (c =? 0x22)%N then scan After [] (rev cur :: acc) s'
      else if ((c =? 0x5C) || (c <? 0x20))%N then None
      else scan InStr (c :: cur) acc s'
    | After =>
      if isJSONSpace c then scan After cur acc s'
      else if (c =? 0x2C)%N then scan Elem cur acc s'
      else if (c =? 0x5D)%N then scan Done cur acc s' else None
    | Done => if isJSONSpace c then scan Done cur acc s' else None
    end
  end.

Definition parse (s : jsstring) : option (list jsstring) := scan Start [] [] s.

(** [parts.join(sep)] on an array of strings. *)
Fixpoint join (parts : list jsstring) (sep : jsstring) : jsstring :=
  match parts with
  | [] => []
  | [p] => p
  | p :: rest => p ++ sep ++ join rest sep
  end.

(** The text of a page file: the array written back as JSON. *)
Definition stringify (parts : list jsstring) : jsstring :=
  [0x5B%N]
  ++ join (List.map (fun p => [0x22%N] ++ p ++ [0x22%N]) parts) (JS.lit ",")
  ++ [0x5D%N].

#[global] Instance runtime : JSONRuntime := {
  JSValue := list jsstring;
  JSON_parse := parse;
  Array_isArray := fun _ => true;
  Array_join := join;
  String_of := fun parts => join parts (JS.lit ",")
}.

End PageFiles.

(** ** Records of the data model ([src/App.tsx]) *)

Module Page.
Record t := mk { bookId : jsstring; volume : Z; page : Z; text : jsstring }.
End Page.

Module Book.
Record t := mk {
  id : jsstring; title : jsstring; author : option jsstring;
  volumes : JS.num; importedAt : option Z }.
End Book.

Module VolumeInfo.
Record t := mk {
  bookId : jsstring; volume : Z; totalPages : Z; importedAt : option Z }.
End VolumeInfo.

(** The books as the search worker receives them: [{ id, title }]. *)
Module BookRef.
Record t := mk { id : jsstring; title : jsstring }.
End BookRef.

Module SearchResult.
Record t := mk {
  bookId : jsstring; bookTitle : jsstring; volume : Z; page : Z;
  snippet : jsstring; matchIndex : Z }.
End SearchResult.

Definition pageKey (pg : Page.t) : jsstring * Z * Z :=
  (Page.bookId pg, Page.volume pg, Page.page pg).

Definition resultKey (r : SearchResult.t) : jsstring * Z * Z :=
  (SearchResult.bookId r, SearchResult.volume r, SearchResult.page r).

(** [r] is a result for the page with this key. *)
Definition isFor (key : jsstring * Z * Z) (r : SearchResult.t) : bool :=
  bool_decide (resultKey r = key).

Inductive SearchMode := exact | root.
Inductive InputMode := arabic | roman.
Inductive SectFilter := all | shia | sunni.

#[global] Instance SectFilter_eq_dec : EqDecision SectFilter.
Proof. solve_decision. Defined.

(** ** Text normalisation, transliteration and search ([src/App.tsx]) *)

Module App.

(** [ARABIC_DIACRITICS = /[\u064B-\u065F\u0670]/g] *)
Definition ARABIC_DIACRITICS (c : N) : bool :=
  (((0x064B <=? c) && (c <=? 0x065F)) || (c =? 0x0670))%N.

Definition isAlefVariant (c : N) : bool :=
  ((c =? 0x0623) || (c =? 0x0625) || (c =? 0x0622) || (c =? 0x0671))%N.

Definition isYaaVariant (c : N) : bool :=
  ((c =? 0x0649) || (c =? 0x0626))%N.

Definition isTaaMarbuta (c : N) : bool := (c =? 0x0629)%N.

Definition isHamza (c : N) : bool := ((c =? 0x0624) || (c =? 0x0621))%N.

Definition normalizeArabic (text : jsstring) : jsstring :=
  JS.replaceClass isHamza []
    (JS.replaceClass isTaaMarbuta [0x0647%N]
      (JS.replaceClass isYaaVariant [0x064A%N]
        (JS.replaceClass isAlefVariant [0x0627%N]
          (JS.replaceClass ARABIC_DIACRITICS [] text)))).

(** [ROMAN_TO_ARABIC], in the order of the object literal: [Object.keys]
    lists string keys in insertion order. *)
Local Notation "k ~> v" := (JS.lit k%string, JS.lit v%string) (at level 60).

Definition ROMAN_TO_ARABIC : list (jsstring * jsstring) :=
  [ "ahlulbayt" ~> "اهل البيت"; "ahlul" ~> "اهل";
    "allah" ~> "الله"; "muhammad" ~> "محمد"; "mohammad" ~> "محمد";
    "hussein" ~> "حسين"; "husain" ~> "حسين"; "hasan" ~> "حسن";
    "hadith" ~> "حديث"; "quran" ~> "قران"; "rasul" ~> "رسول";
    "salat" ~> "صلاة"; "zakat" ~> "زكاة"; "sawm" ~> "صوم";
    "iman" ~> "ايمان"; "islam" ~> "اسلام"; "muslim" ~> "مسلم";
    "deen" ~> "دين"; "kitab" ~> "كتاب"; "rabb" ~> "رب";
    "jannah" ~> "جنه"; "jahannam" ~> "جهنم"; "shaytan" ~> "شيطان";
    "malaika" ~> "ملائكه"; "sahabah" ~> "صحابه"; "sunnah" ~> "سنه";
    "fatwa" ~> "فتوى"; "fiqh" ~> "فقه"; "masjid" ~> "مسجد";
    "kabah" ~> "كعبه"; "makkah" ~> "مكه"; "madinah" ~> "مدينه";
    "imam" ~> "امام"; "nabi" ~> "نبي"; "hajj" ~> "حج";
    "bayt" ~> "بيت"; "ilm" ~> "علم"; "aql" ~> "عقل";
    "nafs" ~> "نفس"; "ruh" ~> "روح"; "qalb" ~> "قلب";
    "ali" ~> "علي"; "din" ~> "دين"; "ahl" ~> "اهل";
    "th" ~> "ث"; "kh" ~> "خ"; "dh" ~> "ذ"; "sh" ~> "ش"; "gh" ~> "غ";
    "aa" ~> "ا"; "ee" ~> "ي"; "ii" ~> "ي"; "oo" ~> "و"; "uu" ~> "و";
    "al" ~> "ال"; "h2" ~> "ه";
    "a" ~> "ا"; "b" ~> "ب"; "t" ~> "ت"; "j" ~> "ج"; "h" ~> "ح";
    "d" ~> "د"; "r" ~> "ر"; "z" ~> "ز"; "s" ~> "س"; "S" ~> "ص";
    "D" ~> "ض"; "T" ~> "ط"; "Z" ~> "ظ"; "'" ~> "ع"; "f" ~> "ف"; "q" ~> "ق";
    "k" ~> "ك"; "l" ~> "ل"; "m" ~> "م"; "n" ~> "ن"; "w" ~> "و"; "y" ~> "ي";
    "i" ~> "ي"; "u" ~> "و"; "o" ~> "و"; "e" ~> "ي" ].

(** [Object.keys(ROMAN_TO_ARABIC)] *)
Definition keys (table : list (jsstring * jsstring)) : list jsstring :=
  List.map fst table.

(** [ROMAN_TO_ARABIC[key]]; a key that is absent reads as [undefined]. *)
Fixpoint lookupKey (table : list (jsstring * jsstring)) (key : jsstring)
  : jsstring :=
  match table with
  | [] => JS.lit "undefined"
  | (k, v) :: rest =>
    if bool_decide (k = key) then v else lookupKey rest key
  end.

(** [keys.sort((a, b) => b.length - a.length)]: [Array.prototype.sort] is
    stable, so a key goes behind the keys that are at least as long. *)
Fixpoint insertByLength (k : jsstring) (sorted : list jsstring)
  : list jsstring :=
  match sorted with
  | [] => [k]
  | x :: rest =>
    if (length x <? length k)%nat then k :: sorted
    else x :: insertByLength k rest
  end.

Definition sortByLengthDesc (ks : list jsstring) : list jsstring :=
  foldl (fun sorted k => insertByLength k sorted) [] ks.

Definition sortedKeys : list jsstring := sortByLengthDesc (keys ROMAN_TO_ARABIC).

(** The lengths of a list of keys never increase from left to right. *)
Fixpoint lengthsDescending (ks : list jsstring) : bool :=
  match ks with
  | a :: (b :: _) as rest => (length b <=? length a)%nat && lengthsDescending rest
  | _ => true
  end.

(** The [for (const key of sortedKeys)] loop of [romanToArabic]. *)
Definition applyKeys (ks : list jsstring) (text : jsstring) : jsstring :=
  foldl (fun result key =>
           JS.replaceAllCI key (lookupKey ROMAN_TO_ARABIC key) result)
        text ks.

Definition romanToArabic (text : jsstring) : jsstring :=
  applyKeys sortedKeys (JS.toLowerCase text).

(** [SUNNI_BOOK_IDS] *)
Definition SUNNI_BOOK_IDS : list jsstring :=
  [ JS.lit "59624"; JS.lit "59622"; JS.lit "109591"; JS.lit "17077";
    JS.lit "02384"; JS.lit "00779"; JS.lit "25568"; JS.lit "66642";
    JS.lit "01484"; JS.lit "124740" ].

(** [getBookSect]: only ['shia'] and ['sunni'] are returned. *)
Definition getBookSect (bookId : jsstring) : SectFilter :=
  if bool_decide (bookId ∈ SUNNI_BOOK_IDS) then sunni else shia.

Section Search.
Context `{JSONRuntime}.

(** The searchable text of a page: the paragraphs joined with spaces when
    the stored text parses to an array, the stored text itself otherwise
    (also when parsing throws). *)
Definition textToSearch (page : Page.t) : jsstring :=
  match JSON_parse (Page.text page) with
  | Some parsed =>
    if Array_isArray parsed then Array_join parsed (JS.lit " ")
    else Page.text page
  | None => Page.text page
  end.

Definition textForMatching (searchMode : SearchMode) (page : Page.t) : jsstring :=
  match searchMode with
  | root => normalizeArabic (textToSearch page)
  | exact => textToSearch page
  end.

(** [book?.title || page.bookId], with [book] found in [booksStore]. *)
Definition bookTitleFor (booksStore : list Book.t) (bookId : jsstring) : jsstring :=
  match List.find (fun b => bool_decide (Book.id b = bookId)) booksStore with
  | Some book => JS.orElse (Book.title book) bookId
  | None => bookId
  end.

(** The snippet built for the match found at [searchIndex]. *)
Definition snippetAt (textToSearch normalizedSearchTerm : jsstring)
    (searchIndex : Z) : jsstring :=
  let start := Z.max 0 (searchIndex - 50) in
  let end_ := Z.min (JS.len textToSearch)
                    (searchIndex + JS.len normalizedSearchTerm + 50) in
  let snippet := JS.substring textToSearch start end_ in
  let snippet := if 0 <? start then JS.lit "..." ++ snippet else snippet in
  if end_ <? JS.len textToSearch then snippet ++ JS.lit "..." else snippet.

(** The [while] loop over the occurrences in one page.  It leaves at the
    latest when [matchCount] reaches 3, so three rounds of [fuel] from
    [matchCount = 0] are never used up (see [matchOffsets_fuel]). *)
Fixpoint matchLoop (fuel : nat) (booksStore : list Book.t) (page : Page.t)
    (textToSearch textForMatching normalizedSearchTerm : jsstring)
    (searchIndex matchCount : Z) : list SearchResult.t :=
  match fuel with
  | O => []
  | S fuel' =>
    let searchIndex := JS.indexOf textForMatching normalizedSearchTerm searchIndex in
    if searchIndex =? -1 then []
    else
      let result :=
        SearchResult.mk (Page.bookId page)
          (bookTitleFor booksStore (Page.bookId page))
          (Page.volume page) (Page.page page)
          (snippetAt textToSearch normalizedSearchTerm searchIndex)
          matchCount in
      let searchIndex := searchIndex + JS.len normalizedSearchTerm in
      let matchCount := matchCount + 1 in
      result ::
        (if 3 <=? matchCount then []
         else matchLoop fuel' booksStore page textToSearch textForMatching
                normalizedSearchTerm searchIndex matchCount)
  end.

(** The same loop, keeping the offsets at which it found the term. *)
Fixpoint matchOffsets (fuel : nat) (textForMatching normalizedSearchTerm : jsstring)
    (searchIndex matchCount : Z) : list Z :=
  match fuel with
  | O => []
  | S fuel' =>
    let searchIndex := JS.indexOf textForMatching normalizedSearchTerm searchIndex in
    if searchIndex =? -1 then []
    else
      let found := searchIndex in
      let searchIndex := searchIndex + JS.len normalizedSearchTerm in
      let matchCount := matchCount + 1 in
      found ::
        (if 3 <=? matchCount then []
         else matchOffsets fuel' textForMatching normalizedSearchTerm
                searchIndex matchCount)
  end.

(** The results pushed for a list of offsets, numbered from [matchCount]. *)
Fixpoint resultsAt (booksStore : list Book.t) (page : Page.t)
    (textToSearch normalizedSearchTerm : jsstring)
    (offsets : list Z) (matchCount : Z) : list SearchResult.t :=
  match offsets with
  | [] => []
  | searchIndex :: rest =>
    SearchResult.mk (Page.bookId page)
      (bookTitleFor booksStore (Page.bookId page))
      (Page.volume page) (Page.page page)
      (snippetAt textToSearch normalizedSearchTerm searchIndex)
      matchCount
    :: resultsAt booksStore page textToSearch normalizedSearchTerm rest
         (matchCount + 1)
  end.

(** A chain of searches in which every search starts where the match
    before it ended: [offsets] are found one after the other from [from]. *)
Inductive resumes (text term : jsstring) : Z -> list Z -> Prop :=
  | resumes_nil from : resumes text term from []
  | resumes_cons from i rest :
      JS.indexOf text term from = i -> i <> -1 ->
      resumes text term (i + JS.len term) rest ->
      resumes text term from (i :: rest).

(** The results one page of [filteredPages] contributes. *)
Definition searchPage (searchMode : SearchMode) (booksStore : list Book.t)
    (normalizedSearchTerm : jsstring) (page : Page.t) : list SearchResult.t :=
  matchLoop 3 booksStore page (textToSearch page)
    (textForMatching searchMode page) normalizedSearchTerm 0 0.

(** The predicate of [pagesStore.filter] in [performSearch]. *)
Definition pageSelected (searchSectFilter : SectFilter)
    (searchSelectedBooks : gset jsstring) (page : Page.t) : bool :=
  negb (bool_decide (searchSectFilter <> all)
        && bool_decide (getBookSect (Page.bookId page) <> searchSectFilter))
  && negb (bool_decide (0 < size searchSelectedBooks)%nat
           && negb (bool_decide (Page.bookId page ∈ searchSelectedBooks))).

Definition searchTermOf (inputMode : InputMode) (query : jsstring) : jsstring :=
  match inputMode with
  | roman => romanToArabic (JS.trim query)
  | arabic => JS.trim query
  end.

Definition normalizedSearchTermOf (searchMode : SearchMode)
    (inputMode : InputMode) (query : jsstring) : jsstring :=
  match searchMode with
  | root => normalizeArabic (searchTermOf inputMode query)
  | exact => searchTermOf inputMode query
  end.

(** The query in the script of the corpus: what was typed in Arabic input
    mode, the transliteration the search makes of it in Roman input mode. *)
Definition queryInScript (inputMode : InputMode) (query : jsstring) : jsstring :=
  match inputMode with
  | roman => romanToArabic (JS.trim query)
  | arabic => query
  end.

(** [performSearch(query)] with the component state it reads passed in.
    [None]: the call returned at its guard and set no results; [Some rs]:
    the array handed to [setSearchResults]. *)
Definition performSearch (inputMode : InputMode) (searchMode : SearchMode)
    (searchSectFilter : SectFilter) (searchSelectedBooks : gset jsstring)
    (booksStore : list Book.t) (pagesStore : list Page.t)
    (query : jsstring) : option (list SearchResult.t) :=
  if negb (JS.truthy (JS.trim query)) then None
  else
    let normalizedSearchTerm := normalizedSearchTermOf searchMode inputMode query in
    let filteredPages :=
      List.filter (pageSelected searchSectFilter searchSelectedBooks) pagesStore in
    Some (List.flat_map (searchPage searchMode booksStore normalizedSearchTerm)
                        filteredPages).

End Search.

(** ** The mirror and the store ([src/App.tsx])

    [booksStore], [volumesStore] and [pagesStore] are the in-memory arrays.
    The IndexedDB database has three object stores with in-line keys: a
    record is stored under the key its key path reads off it.  The
    functions below are the runs in which every storage request succeeds;
    [loadFromDB], whose reads may fail, takes the outcome of each request
    as an input. *)

Record Mirror := mkMirror {
  booksStore : list Book.t;
  volumesStore : list VolumeInfo.t;
  pagesStore : list Page.t }.

Definition volumeKey (v : VolumeInfo.t) : jsstring * Z :=
  (VolumeInfo.bookId v, VolumeInfo.volume v).

Record Database := mkDatabase {
  books : gmap jsstring Book.t;
  volumes : gmap (jsstring * Z) VolumeInfo.t;
  pages : gmap (jsstring * Z * Z) Page.t }.

Record World := mkWorld { mirror : Mirror; db : Database }.

(** [store.put(book)] on the store with key path ['id'] *)
Definition saveBookToDB (book : Book.t) (d : Database) : Database :=
  mkDatabase (<[Book.id book := book]> (books d)) (volumes d) (pages d).

(** [store.put(volume)], key path [['bookId', 'volume']] *)
Definition saveVolumeToDB (volume : VolumeInfo.t) (d : Database) : Database :=
  mkDatabase (books d) (<[volumeKey volume := volume]> (volumes d)) (pages d).

(** [pages.forEach(page => store.put(page))], key path
    [['bookId', 'volume', 'page']] *)
Definition savePagesToDB (ps : list Page.t) (d : Database) : Database :=
  mkDatabase (books d) (volumes d)
    (foldl (fun m pg => <[pageKey pg := pg]> m) (pages d) ps).

(** The cursor over the index ['bookVolume'] at [[bookId, volume]] deletes
    every record whose two fields have these values. *)
Definition deletePagesFromDB (bookId : jsstring) (volume : Z) (d : Database)
  : Database :=
  mkDatabase (books d) (volumes d)
    (filter (fun kv => ~ (Page.bookId kv.2 = bookId /\ Page.volume kv.2 = volume))
            (pages d)).

Definition clearAllFromDB (d : Database) : Database := mkDatabase ∅ ∅ ∅.

(** [deleteBookFromDB]: the book by its key, the volumes and the pages
    through the cursors over their ['bookId'] indexes. *)
Definition deleteBookFromDB (bookId : jsstring) (d : Database) : Database :=
  mkDatabase
    (delete bookId (books d))
    (filter (fun kv => VolumeInfo.bookId kv.2 <> bookId) (volumes d))
    (filter (fun kv => Page.bookId kv.2 <> bookId) (pages d)).

(** *** Startup load *)

Inductive outcome (A : Type) := Resolved (a : A) | Rejected (error : jsstring).
Arguments Resolved {A} a.
Arguments Rejected {A} error.

(** What the requests of one [loadFromDB] call come back with. *)
Record Requests := mkRequests {
  openDB : outcome unit;
  getAllBooks : outcome (list Book.t);
  getAllVolumes : outcome (list VolumeInfo.t);
  getAllPages : outcome (list Page.t) }.

(** [loadFromDB]: [initDB] is awaited outside the [try]; the three reads
    are inside it and the [catch] only logs. *)
Definition loadFromDB (rq : Requests) (m : Mirror) : outcome unit * Mirror :=
  match openDB rq with
  | Rejected e => (Rejected e, m)
  | Resolved _ =>
    match getAllBooks rq with
    | Rejected _ => (Resolved (), m)
    | Resolved bs =>
      let m := mkMirror bs (volumesStore m) (pagesStore m) in
      match getAllVolumes rq with
      | Rejected _ => (Resolved (), m)
      | Resolved vs =>
        let m := mkMirror (booksStore m) vs (pagesStore m) in
        match getAllPages rq with
        | Rejected _ => (Resolved (), m)
        | Resolved ps => (Resolved (), mkMirror (booksStore m) (volumesStore m) ps)
        end
      end
    end
  end.

Definition resolved {A} (o : outcome A) : bool :=
  match o with Resolved _ => true | Rejected _ => false end.

(** The value a read delivered, [old] if it failed. *)
Definition delivered {A} (o : outcome A) (old : A) : A :=
  match o with Resolved a => a | Rejected _ => old end.

(** *** Import *)

Record VolInfo := mkVolInfo { volume : Z; totalPages : Z }.

Record Manifest := mkManifest {
  id : jsstring; title : jsstring; author : option jsstring;
  manifestVolumes : list VolInfo }.

(** An archive: its manifest, if [manifest.json] is there and parses, and
    the text of the file [volumes/<volume>/<page>.txt] where it exists. *)
Record Archive := mkArchive {
  manifest : option Manifest;
  pageFile : Z -> Z -> option jsstring }.

(** The pages read for one volume: [i] runs from 1 to [totalPages] and the
    files that are missing are skipped. *)
Definition readPages (a : Archive) (bookId : jsstring) (volInfo : VolInfo)
  : list Page.t :=
  omap (fun i => Page.mk bookId (volume volInfo) i <$> pageFile a (volume volInfo) i)
       (seqZ 1 (totalPages volInfo)).

Definition inVolume (bookId : jsstring) (vol : Z) (pg : Page.t) : bool :=
  bool_decide (Page.bookId pg = bookId /\ Page.volume pg = vol).

Definition isVolume (bookId : jsstring) (vol : Z) (v : VolumeInfo.t) : bool :=
  bool_decide (VolumeInfo.bookId v = bookId /\ VolumeInfo.volume v = vol).

(** The body of the loop over [manifest.volumes] in [handleFileImport];
    [now] is what [Date.now()] returns in this round. *)
Definition importVolume (a : Archive) (bookId : jsstring) (volInfo : VolInfo)
    (now : Z) (w : World) : World :=
  let ps := readPages a bookId volInfo in
  let newVolume :=
    VolumeInfo.mk bookId (volume volInfo) (totalPages volInfo) (Some now) in
  let m := mirror w in
  let pagesStore' :=
    List.filter (fun pg => negb (inVolume bookId (volume volInfo) pg)) (pagesStore m)
    ++ ps in
  let volumesStore' :=
    List.filter (fun v => negb (isVolume bookId (volume volInfo) v)) (volumesStore m)
    ++ [newVolume] in
  mkWorld (mkMirror (booksStore m) volumesStore' pagesStore')
    (saveVolumeToDB newVolume
       (savePagesToDB ps (deletePagesFromDB bookId (volume volInfo) (db w)))).

(** The same body in [downloadSelectedVolumes], which writes the pages to
    the store before it touches [volumesStore]. *)
Definition downloadVolume (a : Archive) (bookId : jsstring) (volInfo : VolInfo)
    (now : Z) (w : World) : World :=
  let ps := readPages a bookId volInfo in
  let m := mirror w in
  let pagesStore' :=
    List.filter (fun pg => negb (inVolume bookId (volume volInfo) pg)) (pagesStore m) in
  let pagesStore' := pagesStore' ++ ps in
  let d := savePagesToDB ps (deletePagesFromDB bookId (volume volInfo) (db w)) in
  let volumesStore' :=
    List.filter (fun v => negb (isVolume bookId (volume volInfo) v)) (volumesStore m) in
  let newVolume :=
    VolumeInfo.mk bookId (volume volInfo) (totalPages volInfo) (Some now) in
  mkWorld (mkMirror (booksStore m) (volumesStore' ++ [newVolume]) pagesStore')
    (saveVolumeToDB newVolume d).

(** The loop over the volumes; [Date_now n] is the value of the [n]-th
    call of [Date.now()] in the run and [tick] counts the calls made. *)
Fixpoint importVolumes (step : Archive -> jsstring -> VolInfo -> Z -> World -> World)
    (Date_now : nat -> Z) (a : Archive) (bookId : jsstring)
    (vols : list VolInfo) (tick : nat) (w : World) : World :=
  match vols with
  | [] => w
  | volInfo :: rest =>
    importVolumes step Date_now a bookId rest (S tick)
      (step a bookId volInfo (Date_now tick) w)
  end.

(** [existingBook.volumes = ...] writes into the object that sits in
    [booksStore]: the first book with the id. *)
Fixpoint updateBook (bookId : jsstring) (f : Book.t -> Book.t)
    (bs : list Book.t) : list Book.t :=
  match bs with
  | [] => []
  | b :: rest =>
    if bool_decide (Book.id b = bookId) then f b :: rest
    else b :: updateBook bookId f rest
  end.

(** The entry of the manifest that is imported last for a volume number. *)
Fixpoint lastDeclared (vol : Z) (vols : list VolInfo) : option VolInfo :=
  match vols with
  | [] => None
  | volInfo :: rest =>
    match lastDeclared vol rest with
    | Some later => Some later
    | None => if bool_decide (volume volInfo = vol) then Some volInfo else None
    end
  end.


(** "Add book": the tail of an import, after the loop. *)
Definition addBook (m : Manifest) (now : Z) (w : World) : World :=
  let maxVolume := JS.Math_max (List.map volume (manifestVolumes m)) in
  match List.find (fun b => bool_decide (Book.id b = id m)) (booksStore (mirror w)) with
  | Some existingBook =>
    let raise b :=
      Book.mk (Book.id b) (Book.title b) (Book.author b)
        (JS.max2 (Book.volumes b) maxVolume) (Book.importedAt b) in
    mkWorld
      (mkMirror (updateBook (id m) raise (booksStore (mirror w)))
         (volumesStore (mirror w)) (pagesStore (mirror w)))
      (saveBookToDB (raise existingBook) (db w))
  | None =>
    let newBook := Book.mk (id m) (title m) (author m) maxVolume (Some now) in
    mkWorld
      (mkMirror (booksStore (mirror w) ++ [newBook])
         (volumesStore (mirror w)) (pagesStore (mirror w)))
      (saveBookToDB newBook (db w))
  end.

Definition importManifest (step : Archive -> jsstring -> VolInfo -> Z -> World -> World)
    (Date_now : nat -> Z) (a : Archive) (w : World) : World :=
  match manifest a with
  | None => w
  | Some m =>
    addBook m (Date_now (length (manifestVolumes m)))
      (importVolumes step Date_now a (id m) (manifestVolumes m) 0 w)
  end.

(** [handleFileImport] for a file that unzips to [a]: without a manifest
    nothing is imported. *)
Definition handleFileImport := importManifest importVolume.

(** One round of [downloadSelectedVolumes], for a download that unzips
    to [a]. *)
Definition downloadSelectedVolume := importManifest downloadVolume.

(** *** Delete *)

(** Every record sits under the key its key path gives, as IndexedDB
    keeps it for stores with in-line keys. *)
Definition keyed (d : Database) : Prop :=
  (forall k b, books d !! k = Some b -> Book.id b = k)
  /\ (forall k v, volumes d !! k = Some v -> volumeKey v = k)
  /\ (forall k p, pages d !! k = Some p -> pageKey p = k).

(** [handleDeleteBook(book)]; [confirmed] is the answer to [confirm]. *)
Definition handleDeleteBook (confirmed : bool) (book : Book.t) (w : World) : World :=
  if negb confirmed then w
  else
    let translationBookId := Book.id book ++ JS.lit "_en" in
    let keep (bookId : jsstring) : bool :=
      bool_decide (bookId <> Book.id book)
      && bool_decide (bookId <> translationBookId) in
    let m := mirror w in
    mkWorld
      (mkMirror
         (List.filter (fun b => keep (Book.id b)) (booksStore m))
         (List.filter (fun v => keep (VolumeInfo.bookId v)) (volumesStore m))
         (List.filter (fun p => keep (Page.bookId p)) (pagesStore m)))
      (deleteBookFromDB translationBookId (deleteBookFromDB (Book.id book) (db w))).

End App.

(** ** The search worker ([src/workers/search.worker.ts]) *)

Module SearchWorker.

Definition normalizeArabic (text : jsstring) : jsstring :=
  JS.replaceClass (fun c => (c =? 0x0640)%N) []
    (JS.replaceClass (fun c => (c =? 0x0649)%N) [0x064A%N]
      (JS.replaceClass (fun c => (c =? 0x0629)%N) [0x0647%N]
        (JS.replaceClass (fun c => (c =? 0x0626)%N) [0x064A%N]
          (JS.replaceClass (fun c => (c =? 0x0624)%N) [0x0648%N]
            (JS.replaceClass App.isAlefVariant [0x0627%N]
              (JS.replaceClass App.ARABIC_DIACRITICS [] text)))))).

(** [extractSnippet(text, matchIndex, length)]; the callers pass an even
    [length], so [length / 2] is a whole number. *)
Definition extractSnippet (text : jsstring) (matchIndex length : Z) : jsstring :=
  let start := Z.max 0 (matchIndex - length / 2) in
  let end_ := Z.min (JS.len text) (matchIndex + length / 2) in
  let snippet := JS.substring text start end_ in
  let snippet := if 0 <? start then JS.lit "..." ++ snippet else snippet in
  if end_ <? JS.len text then snippet ++ JS.lit "..." else snippet.

Section Worker.
Context `{JSONRuntime}.

(** The body of the loop over the pages: a page whose text does not parse
    is skipped. *)
Definition searchPage (normalizedQuery : jsstring) (mode : SearchMode)
    (bookMap : list (jsstring * jsstring)) (page : Page.t)
  : list SearchResult.t :=
  match JSON_parse (Page.text page) with
  | None => []
  | Some textParts =>
    let fullText :=
      if Array_isArray textParts then Array_join textParts (JS.lit " ")
      else String_of textParts in
    let searchText :=
      match mode with root => normalizeArabic fullText | exact => fullText end in
    let matchIndex := JS.indexOf searchText normalizedQuery 0 in
    if negb (matchIndex =? -1) then
      [ SearchResult.mk (Page.bookId page)
          (JS.orElseUndefined
             (JS.Map_get bookMap
                (JS.replaceFirst (Page.bookId page) (JS.lit "_en") []))
             (JS.lit "Unknown"))
          (Page.volume page) (Page.page page)
          (extractSnippet fullText matchIndex 150)
          matchIndex ]
    else []
  end.

Definition performSearch (query : jsstring) (mode : SearchMode)
    (pages : list Page.t) (books : list BookRef.t) : list SearchResult.t :=
  let bookMap := List.map (fun b => (BookRef.id b, BookRef.title b)) books in
  let normalizedQuery :=
    match mode with root => normalizeArabic query | exact => query end in
  List.flat_map (searchPage normalizedQuery mode bookMap) pages.

End Worker.
End SearchWorker.

(** ** The inline fallback ([src/hooks/useSearchWorker.ts]) *)

Module UseSearchWorker.

Section MainThread.
Context `{JSONRuntime}.

Definition performSearchMainThread (query : jsstring) (mode : SearchMode)
    (pages : list Page.t) (books : list BookRef.t) : list SearchResult.t :=
  let bookMap := List.map (fun b => (BookRef.id b, BookRef.title b)) books in
  let normalizeArabic (text : jsstring) : jsstring :=
    JS.replaceClass (fun c => (c =? 0x0640)%N) []
      (JS.replaceClass (fun c => (c =? 0x0649)%N) [0x064A%N]
        (JS.replaceClass (fun c => (c =? 0x0629)%N) [0x0647%N]
          (JS.replaceClass (fun c => (c =? 0x0626)%N) [0x064A%N]
            (JS.replaceClass (fun c => (c =? 0x0624)%N) [0x0648%N]
              (JS.replaceClass
                 (fun c => ((c =? 0x0623) || (c =? 0x0625) || (c =? 0x0622)
                            || (c =? 0x0671))%N) [0x0627%N]
                 (JS.replaceClass
                    (fun c => (((0x064B <=? c) && (c <=? 0x065F))
                               || (c =? 0x0670))%N) [] text)))))) in
  let normalizedQuery :=
    match mode with root => normalizeArabic query | exact => query end in
  List.flat_map
    (fun page =>
       match JSON_parse (Page.text page) with
       | None => []
       | Some textParts =>
         let fullText :=
           if Array_isArray textParts then Array_join textParts (JS.lit " ")
           else String_of textParts in
         let searchText :=
           match mode with root => normalizeArabic fullText | exact => fullText end in
         let matchIndex := JS.indexOf searchText normalizedQuery 0 in
         if negb (matchIndex =? -1) then
           let start := Z.max 0 (matchIndex - 75) in
           let end_ := Z.min (JS.len fullText) (matchIndex + 75) in
           let snippet := JS.substring fullText start end_ in
           let snippet := if 0 <? start then JS.lit "..." ++ snippet else snippet in
           let snippet :=
             if end_ <? JS.len fullText then snippet ++ JS.lit "..." else snippet in
           [ SearchResult.mk (Page.bookId page)
               (JS.orElseUndefined
                  (JS.Map_get bookMap
                     (JS.replaceFirst (Page.bookId page) (JS.lit "_en") []))
                  (JS.lit "Unknown"))
               (Page.volume page) (Page.page page) snippet matchIndex ]
         else []
       end)
    pages.

End MainThread.
End UseSearchWorker.

(** ** The search-result cache (performance utilities) *)

Module Performance.

Definition CACHE_SIZE : nat := 50.
Definition CACHE_TTL : Z := 5 * 60 * 1000.

Section Cache.
Context {T : Type}.

Record CachedSearch := mkCached { results : list T; timestamp : Z }.

(** [searchCache]: a [Map] lists its entries in the order in which their
    keys were first set. *)
Definition Cache := list (jsstring * CachedSearch).

Fixpoint mapGet (key : jsstring) (c : Cache) : option CachedSearch :=
  match c with
  | [] => None
  | (k, v) :: rest => if bool_decide (k = key) then Some v else mapGet key rest
  end.

(** [Map.prototype.set]: a key that is present keeps its place. *)
Fixpoint mapSet (key : jsstring) (value : CachedSearch) (c : Cache) : Cache :=
  match c with
  | [] => [(key, value)]
  | (k, v) :: rest =>
    if bool_decide (k = key) then (key, value) :: rest
    else (k, v) :: mapSet key value rest
  end.

Fixpoint mapDelete (key : jsstring) (c : Cache) : Cache :=
  match c with
  | [] => []
  | (k, v) :: rest =>
    if bool_decide (k = key) then rest else (k, v) :: mapDelete key rest
  end.

(** [getCachedSearchResults(cacheKey)] at the time [now]: the answer and
    the cache it leaves. *)
Definition getCachedSearchResults (cacheKey : jsstring) (now : Z) (c : Cache)
  : option (list T) * Cache :=
  match mapGet cacheKey c with
  | Some cached =>
    if now - timestamp cached <? CACHE_TTL then (Some (results cached), c)
    else (None, mapDelete cacheKey c)
  | None => (None, c)
  end.

(** [cacheSearchResults(cacheKey, results)] at the time [now].  The
    oldest key is [searchCache.keys().next().value]; [if (oldestKey)]
    lets an empty key stay. *)
Definition cacheSearchResults (cacheKey : jsstring) (rs : list T) (now : Z)
    (c : Cache) : Cache :=
  let c :=
    if (CACHE_SIZE <=? length c)%nat then
      match c with
      | (oldestKey, _) :: _ =>
        if JS.truthy oldestKey then mapDelete oldestKey c else c
      | [] => c
      end
    else c in
  mapSet cacheKey (mkCached rs now) c.

End Cache.

Arguments CachedSearch T : clear implicits.
Arguments Cache T : clear implicits.

(** Strings in the order of the default [sort]: by code units. *)
Fixpoint ltString (a b : jsstring) : bool :=
  match a, b with
  | _, [] => false
  | [], _ :: _ => true
  | x :: a', y :: b' => (x <? y)%N || ((x =? y)%N && ltString a' b')
  end.

Fixpoint insertSorted (x : jsstring) (sorted : list jsstring) : list jsstring :=
  match sorted with
  | [] => [x]
  | y :: rest => if ltString x y then x :: sorted else y :: insertSorted x rest
  end.

(** [Array.from(selectedBooks).sort()] *)
Definition sortStrings (l : list jsstring) : list jsstring :=
  foldl (fun sorted x => insertSorted x sorted) [] l.

Definition modeName (mode : SearchMode) : jsstring :=
  match mode with exact => JS.lit "exact" | root => JS.lit "root" end.

(** [getSearchCacheKey]; [selectedBooks] lists the set in insertion
    order. *)
Definition getSearchCacheKey (query : jsstring) (mode : SearchMode)
    (sectFilter : jsstring) (selectedBooks : list jsstring) : jsstring :=
  let booksKey :=
    if (0 <? length selectedBooks)%nat
    then PageFiles.join (sortStrings selectedBooks) (JS.lit ",")
    else JS.lit "all" in
  modeName mode ++ JS.lit ":" ++ sectFilter ++ JS.lit ":" ++ booksKey
  ++ JS.lit ":" ++ query.

(** A search as the cache sees it: the arguments of the key, the results
    and the time at which they are cached. *)
Record Search {T : Type} := mkSearch {
  query : jsstring; mode : SearchMode; sectFilter : jsstring;
  selectedBooks : list jsstring; found : list T; at_ : Z }.
Arguments Search T : clear implicits.
Arguments mkSearch {T} query mode sectFilter selectedBooks found at_.

Definition keyOf {T} (s : Search T) : jsstring :=
  getSearchCacheKey (query s) (mode s) (sectFilter s) (selectedBooks s).

(** The cache that holds exactly these searches, oldest first. *)
Definition cacheOf {T} (searches : list (Search T)) : Cache T :=
  List.map (fun s => (keyOf s, mkCached (found s) (at_ s))) searches.

(** The searches cached one after the other. *)
Definition cacheAll {T} (searches : list (Search T)) (c : Cache T) : Cache T :=
  foldl (fun c s => cacheSearchResults (keyOf s) (found s) (at_ s) c) c searches.

End Performance.

(** ** Vocabulary of the further properties *)

(** A code unit that [App.normalizeArabic] neither strips nor folds. *)
Definition isClean (c : N) : Prop :=
  App.ARABIC_DIACRITICS c = false /\ App.isAlefVariant c = false
  /\ App.isYaaVariant c = false /\ App.isTaaMarbuta c = false
  /\ App.isHamza c = false.

(** The code units on which the normalisation of the application and that
    of the search worker part: waw with hamza, hamza and tatweel. *)
Definition normalisedAlike (c : N) : Prop :=
  c <> 0x0624%N /\ c <> 0x0621%N /\ c <> 0x0640%N.


(** The keys of a given length, in the order of the list. *)
Definition keysOfLength (n : nat) (ks : list jsstring) : list jsstring :=
  List.filter (fun k => (length k =? n)%nat) ks.

(** A code unit that the values of the substitution table are made of: a
    space or a code unit beyond ASCII. *)
Definition isValueUnit (x : N) : bool := ((x =? 0x20) || (0x80 <=? x))%N.

(** A lower-case ASCII letter or the apostrophe: what the keys of the
    substitution table begin with, case put aside. *)
Definition isKeyStart (x : N) : bool :=
  (((0x61 <=? x) && (x <=? 0x7A)) || (x =? 0x27))%N.

(** The mirror and the store agree: the store is keyed, the books of the
    mirror have distinct ids, and a record is in a mirror array exactly if
    the store holds it under its key.  A reload from the store would then
    bring back the records of the mirror. *)
Definition consistent (w : App.World) : Prop :=
  App.keyed (App.db w)
  /\ List.NoDup (List.map Book.id (App.booksStore (App.mirror w)))
  /\ (forall b, In b (App.booksStore (App.mirror w))
                <-> App.books (App.db w) !! Book.id b = Some b)
  /\ (forall v, In v (App.volumesStore (App.mirror w))
                <-> App.volumes (App.db w) !! App.volumeKey v = Some v)
  /\ (forall p, In p (App.pagesStore (App.mirror w))
                <-> App.pages (App.db w) !! pageKey p = Some p).

(** The volume record of volume [vol] of [bookId] in the mirror and in the
    store is [rec], and the mirror has no other record for the volume. *)
Definition volumeRecorded (w : App.World) (bookId : jsstring) (vol : Z)
    (rec : VolumeInfo.t) : Prop :=
  List.filter (App.isVolume bookId vol) (App.volumesStore (App.mirror w)) = [rec]
  /\ App.volumes (App.db w) !! (bookId, vol) = Some rec.

(** The pages of volume [vol] of [bookId] are the same in [w'] as in [w],
    in the mirror and in the store. *)
Definition sameVolumePages (w w' : App.World) (bookId : jsstring) (vol : Z)
  : Prop :=
  List.filter (App.inVolume bookId vol) (App.pagesStore (App.mirror w'))
  = List.filter (App.inVolume bookId vol) (App.pagesStore (App.mirror w))
  /\ forall k p, App.inVolume bookId vol p = true ->
       (App.pages (App.db w') !! k = Some p <-> App.pages (App.db w) !! k = Some p).

(** A book id that a delete of [book] does not aim at: neither the id of
    the book nor the id of its translation. *)
Definition otherBook (book : Book.t) (bookId : jsstring) : Prop :=
  bookId <> Book.id book /\ bookId <> Book.id book ++ JS.lit "_en".

(** The keys of the search cache, oldest first. *)
Definition cacheKeys {T} (c : Performance.Cache T) : list jsstring :=
  List.map fst c.

(** A search cache as the module keeps it: a [Map], so no key twice; no
    empty key; and at most [CACHE_SIZE] entries. *)
Definition boundedCache {T} (c : Performance.Cache T) : Prop :=
  List.NoDup (cacheKeys c)
  /\ Forall (fun k => k <> []) (cacheKeys c)
  /\ (length c <= Performance.CACHE_SIZE)%nat.

(** [a] does not come after [b] in the order of the default [sort]. *)
Definition leString (a b : jsstring) : Prop := Performance.ltString b a = false.

Section WorkerVocabulary.
Context `{JSONRuntime}.

(** The text of a page as the worker puts it together from the parsed
    parts. *)
Definition fullTextOf (textParts : JSValue) : jsstring :=
  if Array_isArray textParts then Array_join textParts (JS.lit " ")
  else String_of textParts.

(** A text as the worker compares it: normalised in root mode, as it is in
    exact mode. *)
Definition asSearched (mode : SearchMode) (text : jsstring) : jsstring :=
  match mode with root => SearchWorker.normalizeArabic text | exact => text end.

(** The title that the worker's book map holds for an id, ['Unknown'] for
    want of one. *)
Definition titleUnder (books : list BookRef.t) (bookId : jsstring) : jsstring :=
  JS.orElseUndefined
    (JS.Map_get (List.map (fun b => (BookRef.id b, BookRef.title b)) books) bookId)
    (JS.lit "Unknown").

End WorkerVocabulary.

(** ** The cache of the search hook ([src/hooks/useSearchWorker.ts]) *)

Module SearchHook.

Definition CACHE_SIZE : nat := 50.
Definition CACHE_TTL : Z := 5 * 60 * 1000.

Record SearchCache := mkSearchCache {
  key : jsstring; results : list SearchResult.t; timestamp : Z }.

(** [cacheRef.current]: a [Map], its entries in the order in which their
    keys were first set. *)
Definition Cache := list (jsstring * SearchCache).

Fixpoint mapGet (k : jsstring) (c : Cache) : option SearchCache :=
  match c with
  | [] => None
  | (k', v) :: rest => if bool_decide (k' = k) then Some v else mapGet k rest
  end.

Fixpoint mapSet (k : jsstring) (value : SearchCache) (c : Cache) : Cache :=
  match c with
  | [] => [(k, value)]
  | (k', v) :: rest =>
    if bool_decide (k' = k) then (k, value) :: rest
    else (k', v) :: mapSet k value rest
  end.

Fixpoint mapDelete (k : jsstring) (c : Cache) : Cache :=
  match c with
  | [] => []
  | (k', v) :: rest =>
    if bool_decide (k' = k) then rest else (k', v) :: mapDelete k rest
  end.

Definition getCacheKey (query : jsstring) (mode : SearchMode) : jsstring :=
  Performance.modeName mode ++ JS.lit ":" ++ query.

(** [getFromCache(query, mode)] at the time [now]; a stale entry stays in
    the map. *)
Definition getFromCache (query : jsstring) (mode : SearchMode) (now : Z)
    (c : Cache) : option (list SearchResult.t) :=
  match mapGet (getCacheKey query mode) c with
  | Some cached =>
    if now - timestamp cached <? CACHE_TTL then Some (results cached) else None
  | None => None
  end.

(** [addToCache(query, mode, results)] at the time [now]. *)
Definition addToCache (query : jsstring) (mode : SearchMode)
    (rs : list SearchResult.t) (now : Z) (c : Cache) : Cache :=
  let k := getCacheKey query mode in
  let c :=
    if (CACHE_SIZE <=? length c)%nat then
      match c with
      | (oldestKey, _) :: _ =>
        if JS.truthy oldestKey then mapDelete oldestKey c else c
      | [] => c
      end
    else c in
  mapSet k (mkSearchCache k rs now) c.

Section Search.
Context `{JSONRuntime}.

(** [search(query, mode, pages, books)], one search at a time: the
    results and the cache it leaves.  [worker] tells whether the worker
    runs the scan (it answers the message with the results of its
    [performSearch]) or the main thread does; [now] is the time of the
    look-up and [later] the time at which the results are cached. *)
Definition search (worker : bool) (query : jsstring) (mode : SearchMode)
    (pages : list Page.t) (books : list BookRef.t) (now later : Z) (c : Cache)
  : list SearchResult.t * Cache :=
  match getFromCache query mode now c with
  | Some cached => (cached, c)
  | None =>
    let rs :=
      if worker then SearchWorker.performSearch query mode pages books
      else UseSearchWorker.performSearchMainThread query mode pages books in
    (rs, addToCache query mode rs later c)
  end.

End Search.
End SearchHook.

(** ** Example corpora *)

Module Examples.

Definition b1 : jsstring := JS.lit "b1".

Definition book_b1 : Book.t := Book.mk b1 (JS.lit "Book One") None (JS.Num 1) None.

(** The corpus of the specification's scenario: volume 1 of [b1] with two
    pages. *)
Definition scenarioPages : list Page.t :=
  [ Page.mk b1 1 1 (PageFiles.stringify [JS.lit "بسم الله"; JS.lit "العلم نور"]);
    Page.mk b1 1 2 (PageFiles.stringify [JS.lit "لا اله الا الله"]) ].

(** A page on which the word searched for occurs ten times. *)
Definition tenTimes : Page.t :=
  Page.mk b1 1 1
    (PageFiles.stringify
       [JS.lit "علم علم علم علم علم"; JS.lit "علم علم علم علم علم"]).

(** A vocalised page: the tanwin sits between the word and the space. *)
Definition vocalised : Page.t :=
  Page.mk b1 1 1 (PageFiles.stringify [JS.lit "نورٌ على نور"]).

(** A long vocalised page: forty times "قَالَ " and then "العلم نور".
    Every "قَالَ " loses its two fathas under normalisation. *)
Definition longVocalisedText : jsstring :=
  concat (replicate 40 (JS.lit "قَالَ ")) ++ JS.lit "العلم نور".

Definition longVocalised : Page.t :=
  Page.mk b1 1 1 (PageFiles.stringify [longVocalisedText]).

(** A startup at which the read of the volumes fails. *)
Definition failingVolumes : App.Requests :=
  App.mkRequests (App.Resolved ()) (App.Resolved [book_b1])
    (App.Rejected (JS.lit "UnknownError"))
    (App.Resolved scenarioPages).

Definition emptyMirror : App.Mirror := App.mkMirror [] [] [].

Definition emptyWorld : App.World :=
  App.mkWorld emptyMirror (App.mkDatabase ∅ ∅ ∅).

Definition page1Text : jsstring :=
  PageFiles.stringify [JS.lit "بسم الله"; JS.lit "العلم نور"].

Definition page2Text : jsstring :=
  PageFiles.stringify [JS.lit "لا اله الا الله"].

(** The archive of the scenario: [b1] with volume 1 of two pages. *)
Definition twoPages : App.Archive :=
  App.mkArchive
    (Some (App.mkManifest b1 (JS.lit "Book One") None [App.mkVolInfo 1 2]))
    (fun vol page =>
       if (vol =? 1) && (page =? 1) then Some page1Text
       else if (vol =? 1) && (page =? 2) then Some page2Text
       else None).

(** A later archive of [b1] in which volume 1 has shrunk to one page. *)
Definition onePage : App.Archive :=
  App.mkArchive
    (Some (App.mkManifest b1 (JS.lit "Book One") None [App.mkVolInfo 1 1]))
    (fun vol page =>
       if (vol =? 1) && (page =? 1) then Some page1Text else None).

Definition clock (n : nat) : Z := 1700000000000 + Z.of_nat n.

(** Fifty-one searches with fifty-one queries: the [n]-th asks for [n]
    times the letter alef and is cached at the time [n]. *)
Definition manySearches : list (Performance.Search SearchResult.t) :=
  List.map (fun n => Performance.mkSearch (replicate n 0x0627%N) root
                       (JS.lit "all") [] [] (Z.of_nat n))
           (seq 0 51).

(** The library after the first import. *)
Definition imported : App.World := App.handleFileImport clock twoPages emptyWorld.


(** A page of the translation of [b1]. *)
Definition translated : Page.t :=
  Page.mk (b1 ++ JS.lit "_en") 1 1 (PageFiles.stringify [JS.lit "knowledge is light"]).

End Examples.

(* ===================================================================== *)
(** * Part II: properties                                                 *)
(* ===================================================================== *)

(** ** Literals *)

Example lit_ilm : JS.lit "علم" = [0x0639; 0x0644; 0x0645]%N.
Proof. reflexivity. Qed.

Example lit_vocalised :
  JS.lit "قَالَ " = [0x0642; 0x064E; 0x0627; 0x0644; 0x064E; 0x0020]%N.
Proof. reflexivity. Qed.

Example lit_ascii : JS.lit "_en" = [0x5F; 0x65; 0x6E]%N.
Proof. reflexivity. Qed.

Example parse_page_file :
  PageFiles.parse Examples.page1Text
  = Some [JS.lit "بسم الله"; JS.lit "العلم نور"].
Proof. vm_compute. reflexivity. Qed.

(** ** Normalisation *)

Lemma replaceClass_app cls repl (s t : jsstring) :
  JS.replaceClass cls repl (s ++ t)
  = JS.replaceClass cls repl s ++ JS.replaceClass cls repl t.
Proof.
  induction s as [|c s IH]; simpl; [done|].
  by rewrite IH, app_assoc.
Qed.

Lemma replaceClass_unit cls repl c :
  JS.replaceClass cls repl [c] = if cls c then repl else [c].
Proof. simpl. apply app_nil_r. Qed.

Lemma normalizeArabic_app (s t : jsstring) :
  App.normalizeArabic (s ++ t) = App.normalizeArabic s ++ App.normalizeArabic t.
Proof. unfold App.normalizeArabic. by rewrite !replaceClass_app. Qed.

Lemma normalizeArabic_cons c (s : jsstring) :
  App.normalizeArabic (c :: s) = App.normalizeArabic [c] ++ App.normalizeArabic s.
Proof. apply (normalizeArabic_app [c] s). Qed.

(** One code unit is either dropped, folded to a letter that the
    normalisation leaves alone, or kept; normalising the outcome again
    changes nothing. *)
Lemma normalizeArabic_unit c :
  App.normalizeArabic (App.normalizeArabic [c]) = App.normalizeArabic [c].
Proof.
  unfold App.normalizeArabic.
  rewrite (replaceClass_unit App.ARABIC_DIACRITICS _ c).
  destruct (App.ARABIC_DIACRITICS c) eqn:Hd; [done|].
  rewrite (replaceClass_unit App.isAlefVariant _ c).
  destruct (App.isAlefVariant c) eqn:Ha; [done|].
  rewrite (replaceClass_unit App.isYaaVariant _ c).
  destruct (App.isYaaVariant c) eqn:Hy; [done|].
  rewrite (replaceClass_unit App.isTaaMarbuta _ c).
  destruct (App.isTaaMarbuta c) eqn:Ht; [done|].
  rewrite (replaceClass_unit App.isHamza _ c).
  destruct (App.isHamza c) eqn:Hh; [done|].
  rewrite (replaceClass_unit _ _ c), Hd, (replaceClass_unit _ _ c), Ha.
  rewrite (replaceClass_unit _ _ c), Hy, (replaceClass_unit _ _ c), Ht.
  by rewrite (replaceClass_unit _ _ c), Hh.
Qed.

(** C6: Arabic normalisation is idempotent on every string. *)
Theorem normalizeArabic_idempotent (s : jsstring) :
  App.normalizeArabic (App.normalizeArabic s) = App.normalizeArabic s.
Proof.
  induction s as [|c s IH]; [done|].
  rewrite normalizeArabic_cons, normalizeArabic_app.
  by rewrite normalizeArabic_unit, IH.
Qed.

(** C7: the substitution table is applied longest key first, so
    [romanToArabic "ahlulbayt"] is the phrase of the whole-word entry and
    not the letter-by-letter rendering of a,h,l,u,l,b,a,y,t. *)
Theorem romanToArabic_longest_key_first :
  App.lengthsDescending App.sortedKeys = true
  /\ head App.sortedKeys = Some (JS.lit "ahlulbayt")
  /\ App.romanToArabic (JS.lit "ahlulbayt") = JS.lit "اهل البيت"
  /\ App.romanToArabic (JS.lit "ahlulbayt")
     <> concat (List.map (fun c => App.lookupKey App.ROMAN_TO_ARABIC [c])
                         (JS.lit "ahlulbayt")).
Proof. repeat split; [vm_compute; reflexivity ..|vm_compute; discriminate]. Qed.

(** ** Searching inside a string *)

Lemma startsWith_spec (pat s : jsstring) :
  JS.startsWith pat s = true <-> exists post, s = pat ++ post.
Proof.
  revert s. induction pat as [|p pat IH]; intros s; simpl.
  - split; [intros _; by exists s | done].
  - destruct s as [|c s].
    + split; [done | intros [post Hp]; discriminate].
    + rewrite andb_true_iff, N.eqb_eq, IH. split.
      * intros [-> [post ->]]. by exists post.
      * intros [post Hp]. injection Hp as -> ->. split; [done | by exists post].
Qed.

Lemma indexOfFrom_complete (pat pre post : jsstring) k :
  0 <= k -> JS.indexOfFrom pat (pre ++ pat ++ post) k <> -1.
Proof.
  revert k. induction pre as [|c pre IH]; intros k Hk.
  - simpl. destruct (pat ++ post) as [|c r] eqn:E; simpl.
    + destruct (JS.startsWith pat []) eqn:Hs; [lia|].
      exfalso. destruct pat; [done | discriminate].
    + assert (JS.startsWith pat (c :: r) = true) as ->; [|lia].
      apply startsWith_spec. exists post. by rewrite <- E.
  - simpl. destruct (JS.startsWith pat (c :: pre ++ pat ++ post)); [lia|].
    apply IH. lia.
Qed.

Lemma indexOfFrom_sound (pat s : jsstring) k r :
  JS.indexOfFrom pat s k = r -> r <> -1 ->
  exists pre post, s = pre ++ pat ++ post /\ r = k + JS.len pre.
Proof.
  revert k. induction s as [|c s IH]; intros k; simpl.
  - destruct (JS.startsWith pat []) eqn:Hs; [|congruence].
    intros <- _. apply startsWith_spec in Hs as [post Hp].
    exists [], post. split; [done | unfold JS.len; simpl; lia].
  - destruct (JS.startsWith pat (c :: s)) eqn:Hs.
    + intros <- _. apply startsWith_spec in Hs as [post Hp].
      exists [], post. split; [done | unfold JS.len; simpl; lia].
    + intros Hr Hne. destruct (IH _ Hr Hne) as (pre & post & -> & ->).
      exists (c :: pre), post. split; [done|].
      unfold JS.len. simpl length. lia.
Qed.

Lemma indexOf_zero_complete (s pat : jsstring) :
  JS.contains s pat -> JS.indexOf s pat 0 <> -1.
Proof.
  intros (pre & post & ->). unfold JS.indexOf.
  assert (Z.min (Z.max 0 0) (JS.len (pre ++ pat ++ post)) = 0) as ->.
  { unfold JS.len. lia. }
  simpl. by apply indexOfFrom_complete.
Qed.

Lemma indexOf_sound (s pat : jsstring) pos r :
  JS.indexOf s pat pos = r -> r <> -1 -> JS.contains s pat.
Proof.
  unfold JS.indexOf. intros Hr Hne.
  destruct (indexOfFrom_sound _ _ _ _ Hr Hne) as (pre & post & Hs & _).
  exists (take (Z.to_nat (Z.min (Z.max pos 0) (JS.len s))) s ++ pre), post.
  rewrite <- app_assoc, <- Hs. by rewrite take_drop.
Qed.

(** ** Trimming *)

Lemma trimStart_suffix (s : jsstring) : exists pre, s = pre ++ JS.trimStart s.
Proof.
  induction s as [|c s [pre IH]]; [by exists []|].
  simpl. destruct (JS.isWhiteSpace c).
  - exists (c :: pre). simpl. by rewrite <- IH.
  - by exists [].
Qed.

Lemma trim_infix (q : jsstring) : exists pre post, q = pre ++ JS.trim q ++ post.
Proof.
  unfold JS.trim.
  destruct (trimStart_suffix q) as [pre Hq].
  destruct (trimStart_suffix (rev (JS.trimStart q))) as [erp He].
  exists pre, (rev erp).
  rewrite <- rev_app_distr, <- He, rev_involutive. exact Hq.
Qed.

Lemma contains_infix (s q pre t post : jsstring) :
  q = pre ++ t ++ post -> JS.contains s q -> JS.contains s t.
Proof.
  intros -> (a & b & ->). exists (a ++ pre), (post ++ b).
  by rewrite <- !app_assoc.
Qed.

Lemma contains_normalized_trim (s q : jsstring) :
  JS.contains (App.normalizeArabic s) (App.normalizeArabic q) ->
  JS.contains (App.normalizeArabic s) (App.normalizeArabic (JS.trim q)).
Proof.
  destruct (trim_infix q) as (pre & post & Hq).
  apply contains_infix with (pre := App.normalizeArabic pre)
                            (post := App.normalizeArabic post).
  by rewrite <- !normalizeArabic_app, <- Hq.
Qed.

(** ** The loop over the occurrences in a page *)

Section SearchFacts.
Context `{JSONRuntime}.

Lemma matchLoop_resultsAt fuel books pg tts tfm term idx mc :
  App.matchLoop fuel books pg tts tfm term idx mc
  = App.resultsAt books pg tts term (App.matchOffsets fuel tfm term idx mc) mc.
Proof.
  revert idx mc. induction fuel as [|fuel IH]; intros idx mc; [done|].
  simpl. destruct (JS.indexOf tfm term idx =? -1); [done|].
  simpl. f_equal. destruct (3 <=? mc + 1); [done|]. apply IH.
Qed.

Lemma matchOffsets_resumes fuel tfm term idx mc :
  App.resumes tfm term idx (App.matchOffsets fuel tfm term idx mc).
Proof.
  revert idx mc. induction fuel as [|fuel IH]; intros idx mc; [constructor|].
  simpl. destruct (JS.indexOf tfm term idx =? -1) eqn:E; [constructor|].
  apply App.resumes_cons; [done | lia |].
  destruct (3 <=? mc + 1); [constructor | apply IH].
Qed.

(** The cap comes from the [break], not from the fuel: whatever the fuel,
    at most [3 - matchCount] results are pushed (one when the loop is
    entered with the cap already reached). *)
Lemma matchOffsets_length fuel tfm term idx mc :
  (length (App.matchOffsets fuel tfm term idx mc)
   <= Z.to_nat (Z.max 1 (3 - mc)))%nat.
Proof.
  revert idx mc. induction fuel as [|fuel IH]; intros idx mc; simpl; [lia|].
  destruct (JS.indexOf tfm term idx =? -1); simpl; [lia|].
  destruct (3 <=? mc + 1) eqn:E; simpl; [lia|].
  specialize (IH (JS.indexOf tfm term idx + JS.len term) (mc + 1)). lia.
Qed.

(** Three rounds are enough: more fuel changes nothing. *)
Lemma matchOffsets_fuel fuel tfm term idx mc :
  (1 <= fuel)%nat -> 3 - mc <= Z.of_nat fuel ->
  App.matchOffsets (S fuel) tfm term idx mc = App.matchOffsets fuel tfm term idx mc.
Proof.
  revert idx mc. induction fuel as [|fuel IH]; intros idx mc H1 H3; [lia|].
  change (App.matchOffsets (S (S fuel)) tfm term idx mc) with
    (let i := JS.indexOf tfm term idx in
     if i =? -1 then []
     else i :: (if 3 <=? mc + 1 then []
                else App.matchOffsets (S fuel) tfm term (i + JS.len term) (mc + 1))).
  change (App.matchOffsets (S fuel) tfm term idx mc) with
    (let i := JS.indexOf tfm term idx in
     if i =? -1 then []
     else i :: (if 3 <=? mc + 1 then []
                else App.matchOffsets fuel tfm term (i + JS.len term) (mc + 1))).
  cbv zeta. destruct (JS.indexOf tfm term idx =? -1); [done|].
  f_equal. destruct (3 <=? mc + 1) eqn:E; [done|].
  apply IH; lia.
Qed.

Lemma resultsAt_length books pg tts term offsets mc :
  length (App.resultsAt books pg tts term offsets mc) = length offsets.
Proof.
  revert mc. induction offsets as [|i r IH]; intros mc; simpl; [done|].
  by rewrite IH.
Qed.

Lemma resultsAt_key books pg tts term offsets mc r :
  In r (App.resultsAt books pg tts term offsets mc) -> resultKey r = pageKey pg.
Proof.
  revert mc. induction offsets as [|i rest IH]; intros mc; simpl; [done|].
  intros [<- | Hin]; [done | by eapply IH].
Qed.

Lemma searchPage_length mode books term pg :
  (length (App.searchPage mode books term pg) <= 3)%nat.
Proof.
  unfold App.searchPage. rewrite matchLoop_resultsAt, resultsAt_length.
  apply (matchOffsets_length 3 _ _ 0 0).
Qed.

Lemma searchPage_key mode books term pg r :
  In r (App.searchPage mode books term pg) -> resultKey r = pageKey pg.
Proof.
  unfold App.searchPage. rewrite matchLoop_resultsAt. apply resultsAt_key.
Qed.

(** A page whose text for matching contains the term contributes a
    result; a page whose text does not contains none. *)
Lemma searchPage_found mode books term pg :
  JS.contains (App.textForMatching mode pg) term ->
  exists r, In r (App.searchPage mode books term pg).
Proof.
  intros Hc. apply indexOf_zero_complete in Hc.
  unfold App.searchPage. simpl.
  destruct (JS.indexOf (App.textForMatching mode pg) term 0 =? -1) eqn:E; [lia|].
  eexists. left. reflexivity.
Qed.

Lemma searchPage_absent mode books term pg :
  ~ JS.contains (App.textForMatching mode pg) term ->
  App.searchPage mode books term pg = [].
Proof.
  intros Hc. unfold App.searchPage. simpl.
  destruct (JS.indexOf (App.textForMatching mode pg) term 0 =? -1) eqn:E; [done|].
  apply Z.eqb_neq in E. exfalso. apply Hc. by eapply indexOf_sound.
Qed.

End SearchFacts.

(** ** The results of a whole search *)

Section PerformSearchFacts.
Context `{JSONRuntime}.

Lemma performSearch_results im mode sf sel books pages q rs :
  App.performSearch im mode sf sel books pages q = Some rs ->
  JS.trim q <> []
  /\ rs = flat_map (App.searchPage mode books (App.normalizedSearchTermOf mode im q))
                   (List.filter (App.pageSelected sf sel) pages).
Proof.
  unfold App.performSearch. destruct (JS.trim q) eqn:E; simpl; [done|].
  by intros [= <-].
Qed.

Lemma performSearch_runs im mode sf sel books pages q :
  JS.trim q <> [] ->
  App.performSearch im mode sf sel books pages q
  = Some (flat_map (App.searchPage mode books (App.normalizedSearchTermOf mode im q))
                   (List.filter (App.pageSelected sf sel) pages)).
Proof. unfold App.performSearch. by destruct (JS.trim q). Qed.

Lemma results_of_other_page mode books term key pg :
  pageKey pg <> key ->
  List.filter (isFor key) (App.searchPage mode books term pg) = [].
Proof.
  intros Hk.
  assert (forall rs, (forall r, In r rs -> resultKey r = pageKey pg) ->
                     List.filter (isFor key) rs = []) as Hnone.
  { induction rs as [|r rs IHrs]; intros Hr; simpl; [done|].
    unfold isFor at 1. rewrite bool_decide_eq_false_2.
    - apply IHrs. intros; apply Hr; by right.
    - by rewrite (Hr r) by (by left). }
  apply Hnone. intros r. apply searchPage_key.
Qed.

Lemma results_of_other_pages mode books term key (l : list Page.t) :
  (forall pg, In pg l -> pageKey pg <> key) ->
  List.filter (isFor key) (flat_map (App.searchPage mode books term) l) = [].
Proof.
  induction l as [|pg l IH]; intros Hk; simpl; [done|].
  rewrite List.filter_app, IH by (intros; apply Hk; by right).
  rewrite results_of_other_page; [done|]. apply Hk. by left.
Qed.

Lemma filter_length_le {A} (f : A -> bool) (l : list A) :
  (length (List.filter f l) <= length l)%nat.
Proof. induction l as [|x l IH]; simpl; [lia|]. destruct (f x); simpl; lia. Qed.

Lemma results_for_key_capped mode books term sf sel key (pages : list Page.t) :
  List.NoDup (List.map pageKey pages) ->
  (length (List.filter (isFor key)
             (flat_map (App.searchPage mode books term)
                       (List.filter (App.pageSelected sf sel) pages))) <= 3)%nat.
Proof.
  induction pages as [|pg pages IH]; intros Hnd; simpl; [lia|].
  apply List.NoDup_cons_iff in Hnd as [Hfresh Hnd].
  destruct (App.pageSelected sf sel pg); [|by apply IH].
  simpl. rewrite List.filter_app, length_app.
  destruct (decide (pageKey pg = key)) as [Hk|Hk].
  - rewrite results_of_other_pages.
    + pose proof (filter_length_le (isFor key) (App.searchPage mode books term pg)).
      pose proof (searchPage_length mode books term pg). simpl. lia.
    + intros pg' Hin Heq. apply Hfresh. rewrite Hk, <- Heq.
      apply List.in_map. apply List.filter_In in Hin. tauto.
  - rewrite results_of_other_page by done.
    specialize (IH Hnd). simpl. lia.
Qed.

End PerformSearchFacts.

(** C5: one search produces at most three results for a page, however
    often the term occurs on it; the results of the page are those of a
    chain of searches each of which starts where the match before it
    ended, and more rounds of the loop would add nothing. *)
Theorem performSearch_cap `{JSONRuntime} im mode sf sel books pages q rs :
  App.performSearch im mode sf sel books pages q = Some rs ->
  List.NoDup (List.map pageKey pages) ->
  forall pg,
    (length (List.filter (isFor (pageKey pg)) rs) <= 3)%nat
    /\ let term := App.normalizedSearchTermOf mode im q in
       let found := App.matchOffsets 3 (App.textForMatching mode pg) term 0 0 in
       App.searchPage mode books term pg
       = App.resultsAt books pg (App.textToSearch pg) term found 0
       /\ App.resumes (App.textForMatching mode pg) term 0 found
       /\ (length found <= 3)%nat
       /\ forall extra,
            App.matchOffsets (3 + extra) (App.textForMatching mode pg) term 0 0
            = found.
Proof.
  intros Hrs Hnd pg. apply performSearch_results in Hrs as [_ ->].
  split; [by apply results_for_key_capped|].
  cbv zeta. split; [apply matchLoop_resultsAt|].
  split; [apply matchOffsets_resumes|].
  split; [apply (matchOffsets_length 3 _ _ 0 0)|].
  induction extra as [|extra IH]; [done|].
  rewrite <- IH. apply matchOffsets_fuel; lia.
Qed.

Lemma performSearch_cap_witness :
  let q := JS.lit "علم" in
  let rs := App.searchPage root [Examples.book_b1]
              (App.normalizedSearchTermOf root arabic q) Examples.tenTimes in
  App.performSearch arabic root all ∅ [Examples.book_b1] [Examples.tenTimes] q
  = Some rs
  /\ List.NoDup (List.map pageKey [Examples.tenTimes])
  /\ (length (List.filter (isFor (pageKey Examples.tenTimes)) rs) <= 3)%nat.
Proof.
  cbv zeta.
  assert (App.performSearch arabic root all ∅ [Examples.book_b1]
            [Examples.tenTimes] (JS.lit "علم")
          = Some (App.searchPage root [Examples.book_b1]
                    (App.normalizedSearchTermOf root arabic (JS.lit "علم"))
                    Examples.tenTimes)) as Hrun.
  { vm_compute. reflexivity. }
  assert (List.NoDup (List.map pageKey [Examples.tenTimes])) as Hnd.
  { apply List.NoDup_cons; [simpl; tauto | apply List.NoDup_nil]. }
  split; [exact Hrun|]. split; [exact Hnd|].
  exact (proj1 (performSearch_cap arabic root all ∅ [Examples.book_b1]
                  [Examples.tenTimes] (JS.lit "علم") _ Hrun Hnd Examples.tenTimes)).
Defined.

(** The word occurs ten times on the page and three results come back,
    numbered 0, 1 and 2. *)
Example tenTimes_three_results :
  (fun rs => (length <$> rs, List.map SearchResult.matchIndex <$> rs))
    (App.performSearch arabic root all ∅ [Examples.book_b1] [Examples.tenTimes]
       (JS.lit "علم"))
  = (Some 3%nat, Some [0; 1; 2]).
Proof. vm_compute. reflexivity. Qed.

(** C1 (amended): for a query that is not blank and a page the filters
    let through, (a) a root-mode search produces a result for the page
    when the normalised text of the page contains the normalised query,
    and (b) an exact-mode search produces none when the raw text of the
    page does not contain the trimmed query. *)
Theorem performSearch_containment `{JSONRuntime} im sf sel books pages q pg :
  JS.trim q <> [] ->
  In pg pages ->
  App.pageSelected sf sel pg = true ->
  (JS.contains (App.normalizeArabic (App.textToSearch pg))
               (App.normalizeArabic (App.queryInScript im q)) ->
   exists rs r,
     App.performSearch im root sf sel books pages q = Some rs
     /\ In r rs /\ resultKey r = pageKey pg)
  /\ (~ JS.contains (App.textToSearch pg) (App.searchTermOf im q) ->
      exists rs,
        App.performSearch im exact sf sel books pages q = Some rs
        /\ App.searchPage exact books (App.searchTermOf im q) pg = []
        /\ ((forall pg', In pg' pages -> pageKey pg' = pageKey pg -> pg' = pg) ->
            forall r, In r rs -> resultKey r <> pageKey pg)).
Proof.
  intros Hq Hin Hsel. split.
  - intros Hc.
    assert (JS.contains (App.textForMatching root pg)
              (App.normalizedSearchTermOf root im q)) as Hc'.
    { destruct im; simpl in *; [by apply contains_normalized_trim | done]. }
    destruct (searchPage_found root books _ pg Hc') as [r Hr].
    eexists _, r. split; [by apply performSearch_runs|]. split.
    + apply List.in_flat_map. exists pg. split; [|exact Hr].
      apply List.filter_In. by split.
    + by eapply searchPage_key.
  - intros Hc. eexists. split; [by apply performSearch_runs|].
    pose proof (searchPage_absent exact books _ pg Hc) as Hnone.
    split; [exact Hnone|].
    intros Huniq r Hr Hkey. apply List.in_flat_map in Hr as (pg' & Hpg' & Hr).
    apply List.filter_In in Hpg' as [Hpg' _].
    pose proof (searchPage_key _ _ _ _ _ Hr) as Hk.
    rewrite (Huniq pg' Hpg') in Hr by congruence.
    simpl in Hr. by rewrite Hnone in Hr.
Qed.

Lemma performSearch_containment_witness :
  let q := JS.lit "علم" in
  let pg := Page.mk Examples.b1 1 1
              (PageFiles.stringify [JS.lit "بسم الله"; JS.lit "العلم نور"]) in
  JS.trim q <> []
  /\ In pg Examples.scenarioPages
  /\ App.pageSelected all ∅ pg = true
  /\ JS.contains (App.normalizeArabic (App.textToSearch pg))
                 (App.normalizeArabic (App.queryInScript arabic q))
  /\ exists rs r,
       App.performSearch arabic root all ∅ [Examples.book_b1]
         Examples.scenarioPages q = Some rs
       /\ In r rs /\ resultKey r = pageKey pg.
Proof.
  cbv zeta.
  assert (JS.trim (JS.lit "علم") <> []) as Hq by (vm_compute; discriminate).
  assert (In (Page.mk Examples.b1 1 1
                (PageFiles.stringify [JS.lit "بسم الله"; JS.lit "العلم نور"]))
             Examples.scenarioPages) as Hin by (left; reflexivity).
  assert (App.pageSelected all ∅
            (Page.mk Examples.b1 1 1
               (PageFiles.stringify [JS.lit "بسم الله"; JS.lit "العلم نور"]))
          = true) as Hsel by (vm_compute; reflexivity).
  assert (JS.contains
            (App.normalizeArabic
               (App.textToSearch
                  (Page.mk Examples.b1 1 1
                     (PageFiles.stringify [JS.lit "بسم الله"; JS.lit "العلم نور"]))))
            (App.normalizeArabic (App.queryInScript arabic (JS.lit "علم"))))
    as Hc.
  { exists (JS.lit "بسم الله ال"), (JS.lit " نور"). vm_compute. reflexivity. }
  split; [exact Hq|]. split; [exact Hin|]. split; [exact Hsel|].
  split; [exact Hc|].
  exact (proj1 (performSearch_containment arabic all ∅ [Examples.book_b1]
                  Examples.scenarioPages (JS.lit "علم") _ Hq Hin Hsel) Hc).
Defined.

Lemma indexOf_absent (s pat : jsstring) :
  JS.indexOf s pat 0 = -1 -> ~ JS.contains s pat.
Proof. intros Hi Hc. by apply indexOf_zero_complete in Hc. Qed.

(** The claim as stated fails on both sides.  A blank query occurs in the
    text of a page (a space does) and the root-mode search returns at its
    guard without any result.  The query "نور " with its trailing space
    occurs in the vocalised page only after normalisation, and the
    exact-mode search, which trims it, produces results for the page. *)
Lemma performSearch_containment_counterexample :
  (let q := JS.lit " " in
   let pg := Page.mk Examples.b1 1 1
               (PageFiles.stringify [JS.lit "بسم الله"; JS.lit "العلم نور"]) in
   In pg Examples.scenarioPages
   /\ App.pageSelected all ∅ pg = true
   /\ JS.contains (App.normalizeArabic (App.textToSearch pg))
                  (App.normalizeArabic q)
   /\ App.performSearch arabic root all ∅ [Examples.book_b1]
        Examples.scenarioPages q = None)
  /\ (let q := JS.lit "نور " in
      let pg := Examples.vocalised in
      JS.contains (App.normalizeArabic (App.textToSearch pg))
                  (App.normalizeArabic q)
      /\ ~ JS.contains (App.textToSearch pg) q
      /\ exists r1 r2,
           App.performSearch arabic exact all ∅ [Examples.book_b1] [pg] q
           = Some [r1; r2]
           /\ resultKey r1 = pageKey pg).
Proof.
  split; cbv zeta.
  - split; [left; reflexivity|]. split; [vm_compute; reflexivity|].
    split; [|vm_compute; reflexivity].
    exists (JS.lit "بسم"), (JS.lit "الله العلم نور"). vm_compute. reflexivity.
  - split.
    { exists [], (JS.lit "علي نور"). vm_compute. reflexivity. }
    split.
    { apply indexOf_absent. vm_compute. reflexivity. }
    eexists _, _. split; vm_compute; reflexivity.
Qed.

(** The scenario of the specification: the root-mode search for "علم"
    gives one result, for page 1 of [b1], whose snippet is the whole text
    of the page; the search for "xyz" gives none. *)
Example scenario_search :
  App.performSearch arabic root all ∅ [Examples.book_b1] Examples.scenarioPages
    (JS.lit "علم")
  = Some [SearchResult.mk Examples.b1 (JS.lit "Book One") 1 1
            (JS.lit "بسم الله العلم نور") 0]
  /\ App.performSearch arabic root all ∅ [Examples.book_b1] Examples.scenarioPages
       (JS.lit "xyz")
     = Some [].
Proof. split; vm_compute; reflexivity. Qed.

(** ** Snippets *)

Lemma indexOf_sound_at (s pat : jsstring) pos r :
  JS.indexOf s pat pos = r -> r <> -1 ->
  exists pre post, s = pre ++ pat ++ post /\ JS.len pre = r.
Proof.
  unfold JS.indexOf. intros Hr Hne.
  destruct (indexOfFrom_sound _ _ _ _ Hr Hne) as (pre & post & Hs & ->).
  set (start := Z.min (Z.max pos 0) (JS.len s)) in *.
  exists (take (Z.to_nat start) s ++ pre), post. split.
  - rewrite <- app_assoc, <- Hs. by rewrite take_drop.
  - unfold JS.len in *. rewrite length_app, length_take. lia.
Qed.

Lemma resultsAt_snippet books pg tts term offsets mc r :
  In r (App.resultsAt books pg tts term offsets mc) ->
  exists i, In i offsets /\ SearchResult.snippet r = App.snippetAt tts term i.
Proof.
  revert mc. induction offsets as [|i rest IH]; intros mc; simpl; [done|].
  intros [<- | Hin].
  - exists i. split; [by left | done].
  - destruct (IH _ Hin) as (j & Hj & Hs). exists j. split; [by right | done].
Qed.

Lemma resumes_occurrences text term from offsets i :
  App.resumes text term from offsets -> In i offsets ->
  exists pre post, text = pre ++ term ++ post /\ JS.len pre = i.
Proof.
  induction 1 as [|from j rest Hj Hne _ IH]; simpl; [done|].
  intros [<- | Hin]; [by eapply indexOf_sound_at | by apply IH].
Qed.

(** Every snippet is cut out of the text shown at an offset at which the
    term occurs in the text searched. *)
Lemma snippet_window_offset `{JSONRuntime} mode books term pg r :
  In r (App.searchPage mode books term pg) ->
  exists pre post,
    App.textForMatching mode pg = pre ++ term ++ post
    /\ SearchResult.snippet r
       = App.snippetAt (App.textToSearch pg) term (JS.len pre).
Proof.
  unfold App.searchPage. rewrite matchLoop_resultsAt. intros Hr.
  apply resultsAt_snippet in Hr as (i & Hi & ->).
  destruct (resumes_occurrences _ _ _ _ i (matchOffsets_resumes 3 _ _ 0 0) Hi)
    as (pre & post & Ht & <-).
  by exists pre, post.
Qed.

(** In exact mode the text searched is the text shown, and every snippet
    is the window around an occurrence of the term in it. *)
Lemma exact_snippet_is_window `{JSONRuntime} books term pg r :
  In r (App.searchPage exact books term pg) ->
  exists pre post,
    App.textToSearch pg = pre ++ term ++ post
    /\ SearchResult.snippet r
       = App.snippetAt (App.textToSearch pg) term (JS.len pre).
Proof. apply (snippet_window_offset exact). Qed.

(** C2: on the long vocalised page the root-mode search for "علم" finds
    the word at offset 162 of the normalised text and cuts the window at
    that offset out of the original text, where the word stands at offset
    242.  The snippet is not the window around the occurrence; it does not
    even reach the word. *)
Theorem root_snippet_misses_occurrence :
  let q := JS.lit "علم" in
  let pg := Examples.longVocalised in
  App.textToSearch pg = Examples.longVocalisedText
  /\ JS.indexOf (App.textForMatching root pg) (App.normalizeArabic q) 0 = 162
  /\ JS.indexOf (App.textToSearch pg) q 0 = 242
  /\ exists r,
       App.performSearch arabic root all ∅ [Examples.book_b1] [pg] q = Some [r]
       /\ SearchResult.snippet r
          = JS.lit "..." ++ JS.substring (App.textToSearch pg) 112 215 ++ JS.lit "..."
       /\ SearchResult.snippet r <> App.snippetAt (App.textToSearch pg) q 242
       /\ ~ JS.contains (SearchResult.snippet r) q
       /\ ~ JS.contains (App.normalizeArabic (SearchResult.snippet r))
                        (App.normalizeArabic q).
Proof.
  cbv zeta. repeat (split; [vm_compute; reflexivity|]).
  eexists. split; [vm_compute; reflexivity|].
  split; [vm_compute; reflexivity|].
  split; [vm_compute; discriminate|].
  split; apply indexOf_absent; vm_compute; reflexivity.
Qed.

(** ** Startup load *)

(** C8 (amended): once the database is open, [loadFromDB] completes
    successfully whatever the three reads do.  A failing read is caught;
    the stores read before it are in the mirror and the others are left
    as they were. *)
Theorem loadFromDB_catches_read_errors (rq : App.Requests) (m : App.Mirror) :
  App.openDB rq = App.Resolved () ->
  let m' := snd (App.loadFromDB rq m) in
  fst (App.loadFromDB rq m) = App.Resolved ()
  /\ App.booksStore m' = App.delivered (App.getAllBooks rq) (App.booksStore m)
  /\ App.volumesStore m'
     = (if App.resolved (App.getAllBooks rq)
        then App.delivered (App.getAllVolumes rq) (App.volumesStore m)
        else App.volumesStore m)
  /\ App.pagesStore m'
     = (if App.resolved (App.getAllBooks rq) && App.resolved (App.getAllVolumes rq)
        then App.delivered (App.getAllPages rq) (App.pagesStore m)
        else App.pagesStore m).
Proof.
  intros Hopen. unfold App.loadFromDB. rewrite Hopen.
  destruct (App.getAllBooks rq), (App.getAllVolumes rq), (App.getAllPages rq);
    by simpl.
Qed.

Lemma loadFromDB_catches_read_errors_witness :
  App.openDB Examples.failingVolumes = App.Resolved ()
  /\ fst (App.loadFromDB Examples.failingVolumes Examples.emptyMirror)
     = App.Resolved ()
  /\ App.booksStore (snd (App.loadFromDB Examples.failingVolumes Examples.emptyMirror))
     = [Examples.book_b1].
Proof.
  split; [reflexivity|].
  pose proof (loadFromDB_catches_read_errors Examples.failingVolumes
                Examples.emptyMirror eq_refl) as (Hok & Hbooks & _).
  split; [exact Hok | exact Hbooks].
Defined.

(** The read of the volumes fails: the call does not hand the error to its
    caller, it resolves, and the mirror holds the books without their
    volumes and pages. *)
Lemma loadFromDB_counterexample :
  App.getAllVolumes Examples.failingVolumes = App.Rejected (JS.lit "UnknownError")
  /\ App.loadFromDB Examples.failingVolumes Examples.emptyMirror
     = (App.Resolved (), App.mkMirror [Examples.book_b1] [] []).
Proof. split; reflexivity. Qed.

(** Only a failure to open the database reaches the caller. *)
Lemma loadFromDB_open_failure rq m e :
  App.openDB rq = App.Rejected e -> App.loadFromDB rq m = (App.Rejected e, m).
Proof. intros Hopen. unfold App.loadFromDB. by rewrite Hopen. Qed.

(** ** The store keeps its records under their keys *)

Lemma keyed_empty : App.keyed (App.mkDatabase ∅ ∅ ∅).
Proof. repeat split; simpl; intros k x; by rewrite lookup_empty. Qed.

Lemma keyed_saveBookToDB b d : App.keyed d -> App.keyed (App.saveBookToDB b d).
Proof.
  intros (Hb & Hv & Hp). repeat split; [|done..]. simpl. intros k b'.
  rewrite lookup_insert_Some. intros [[<- <-] | [_ Hk]]; [done | by apply Hb].
Qed.

Lemma keyed_saveVolumeToDB v d : App.keyed d -> App.keyed (App.saveVolumeToDB v d).
Proof.
  intros (Hb & Hv & Hp). repeat split; [done| |done]. simpl. intros k v'.
  rewrite lookup_insert_Some. intros [[<- <-] | [_ Hk]]; [done | by apply Hv].
Qed.

Lemma keyed_put_pages (ps : list Page.t) (m : gmap (jsstring * Z * Z) Page.t) :
  (forall k p, m !! k = Some p -> pageKey p = k) ->
  forall k p, foldl (fun m pg => <[pageKey pg := pg]> m) m ps !! k = Some p ->
              pageKey p = k.
Proof.
  revert m. induction ps as [|pg ps IH]; intros m Hm; simpl; [done|].
  apply IH. intros k p. rewrite lookup_insert_Some.
  intros [[<- <-] | [_ Hk]]; [done | by apply Hm].
Qed.

Lemma keyed_savePagesToDB ps d : App.keyed d -> App.keyed (App.savePagesToDB ps d).
Proof.
  intros (Hb & Hv & Hp). repeat split; [done..|]. simpl. by apply keyed_put_pages.
Qed.

Lemma keyed_deletePagesFromDB b v d :
  App.keyed d -> App.keyed (App.deletePagesFromDB b v d).
Proof.
  intros (Hb & Hv & Hp). repeat split; [done..|]. simpl. intros k p Hk.
  apply map_lookup_filter_Some in Hk as [Hk _]. by apply Hp.
Qed.

Lemma keyed_deleteBookFromDB b d : App.keyed d -> App.keyed (App.deleteBookFromDB b d).
Proof.
  intros (Hb & Hv & Hp). repeat split; simpl.
  - intros k x Hk. apply lookup_delete_Some in Hk as [_ Hk]. by apply Hb.
  - intros k x Hk. apply map_lookup_filter_Some in Hk as [Hk _]. by apply Hv.
  - intros k x Hk. apply map_lookup_filter_Some in Hk as [Hk _]. by apply Hp.
Qed.

(** ** Deleting a book *)

Lemma deleteBookFromDB_gone bookId d :
  App.keyed d ->
  let d' := App.deleteBookFromDB bookId d in
  (forall k b, App.books d' !! k = Some b -> Book.id b <> bookId)
  /\ (forall k v, App.volumes d' !! k = Some v -> VolumeInfo.bookId v <> bookId)
  /\ (forall k p, App.pages d' !! k = Some p -> Page.bookId p <> bookId).
Proof.
  intros (Hb & _ & _). simpl. repeat split.
  - intros k b Hk. apply lookup_delete_Some in Hk as [Hne Hk].
    rewrite (Hb _ _ Hk). congruence.
  - intros k v Hk. by apply map_lookup_filter_Some in Hk as [_ Hk].
  - intros k p Hk. by apply map_lookup_filter_Some in Hk as [_ Hk].
Qed.

Lemma deleteBookFromDB_subset bookId d :
  let d' := App.deleteBookFromDB bookId d in
  (forall k b, App.books d' !! k = Some b -> App.books d !! k = Some b)
  /\ (forall k v, App.volumes d' !! k = Some v -> App.volumes d !! k = Some v)
  /\ (forall k p, App.pages d' !! k = Some p -> App.pages d !! k = Some p).
Proof.
  simpl. repeat split.
  - intros k b Hk. by apply lookup_delete_Some in Hk as [_ Hk].
  - intros k v Hk. by apply map_lookup_filter_Some in Hk as [Hk _].
  - intros k p Hk. by apply map_lookup_filter_Some in Hk as [Hk _].
Qed.

(** C4: after [handleDeleteBook] has run for a book, neither the mirror
    nor the store holds a book, volume or page whose book id is the id of
    the book or that id with [_en] appended. *)
Theorem handleDeleteBook_cascades (book : Book.t) (w : App.World) :
  App.keyed (App.db w) ->
  let w' := App.handleDeleteBook true book w in
  let gone bookId :=
    bookId = Book.id book \/ bookId = Book.id book ++ JS.lit "_en" in
  (forall b, In b (App.booksStore (App.mirror w')) -> ~ gone (Book.id b))
  /\ (forall v, In v (App.volumesStore (App.mirror w')) -> ~ gone (VolumeInfo.bookId v))
  /\ (forall p, In p (App.pagesStore (App.mirror w')) -> ~ gone (Page.bookId p))
  /\ (forall k b, App.books (App.db w') !! k = Some b -> ~ gone (Book.id b))
  /\ (forall k v, App.volumes (App.db w') !! k = Some v -> ~ gone (VolumeInfo.bookId v))
  /\ (forall k p, App.pages (App.db w') !! k = Some p -> ~ gone (Page.bookId p)).
Proof.
  intros Hkeyed. cbv zeta. unfold App.handleDeleteBook. cbn [negb App.mirror App.db
    App.booksStore App.volumesStore App.pagesStore].
  assert (forall x : jsstring,
            bool_decide (x <> Book.id book)
            && bool_decide (x <> Book.id book ++ JS.lit "_en") = true ->
            ~ (x = Book.id book \/ x = Book.id book ++ JS.lit "_en")) as Hkeep.
  { intros x Hx. apply andb_true_iff in Hx as [H1 H2].
    apply bool_decide_eq_true in H1, H2. tauto. }
  split; [|split; [|split]].
  1-3: intros x Hx; apply List.filter_In in Hx as [_ Hx]; by apply Hkeep.
  pose proof (keyed_deleteBookFromDB (Book.id book) _ Hkeyed) as Hkeyed1.
  destruct (deleteBookFromDB_gone (Book.id book) _ Hkeyed) as (Hb1 & Hv1 & Hp1).
  destruct (deleteBookFromDB_gone (Book.id book ++ JS.lit "_en") _ Hkeyed1)
    as (Hb2 & Hv2 & Hp2).
  destruct (deleteBookFromDB_subset (Book.id book ++ JS.lit "_en")
              (App.deleteBookFromDB (Book.id book) (App.db w)))
    as (Sb & Sv & Sp).
  cbv zeta in *.
  split; [|split].
  - intros k b Hk [Hg | Hg];
      [exact (Hb1 _ _ (Sb _ _ Hk) Hg) | exact (Hb2 _ _ Hk Hg)].
  - intros k v Hk [Hg | Hg];
      [exact (Hv1 _ _ (Sv _ _ Hk) Hg) | exact (Hv2 _ _ Hk Hg)].
  - intros k p Hk [Hg | Hg];
      [exact (Hp1 _ _ (Sp _ _ Hk) Hg) | exact (Hp2 _ _ Hk Hg)].
Qed.

(** ** Importing a volume *)

Lemma readPages_In a b vi pg :
  In pg (App.readPages a b vi) <->
  exists i text,
    1 <= i <= App.totalPages vi
    /\ App.pageFile a (App.volume vi) i = Some text
    /\ pg = Page.mk b (App.volume vi) i text.
Proof.
  unfold App.readPages. rewrite <- list_elem_of_In, list_elem_of_omap. split.
  - intros (i & Hi & Hf). apply elem_of_seqZ in Hi.
    destruct (App.pageFile a (App.volume vi) i) as [text|] eqn:E; [|done].
    injection Hf as <-. exists i, text. split; [lia | done].
  - intros (i & text & Hi & Hf & ->). exists i. split.
    + apply elem_of_seqZ. lia.
    + by rewrite Hf.
Qed.

Lemma readPages_inVolume a b vi pg :
  In pg (App.readPages a b vi) -> App.inVolume b (App.volume vi) pg = true.
Proof.
  intros Hin. apply readPages_In in Hin as (i & text & _ & _ & ->).
  by apply bool_decide_eq_true.
Qed.

(** Keys of the pages that an option-valued reader gives for distinct
    page numbers are distinct. *)
Lemma read_keys_NoDup (b : jsstring) (v : Z) (file : Z -> option jsstring)
    (l : list Z) :
  NoDup l -> NoDup (pageKey <$> omap (fun i => Page.mk b v i <$> file i) l).
Proof.
  induction 1 as [|i l Hi Hl IH]; simpl; [constructor|].
  destruct (file i) as [text|]; simpl; [|done].
  constructor; [|done].
  intros Hin. apply list_elem_of_fmap in Hin as (pg & Hk & Hpg).
  apply list_elem_of_omap in Hpg as (j & Hj & Hf).
  destruct (file j); [|done]. injection Hf as <-.
  injection Hk as ->. done.
Qed.

Lemma readPages_keys_NoDup a b vi : NoDup (pageKey <$> App.readPages a b vi).
Proof. apply read_keys_NoDup, NoDup_seqZ. Qed.

(** What [put] after [put] leaves under a key. *)
Lemma put_pages_lookup (ps : list Page.t) (m : gmap (jsstring * Z * Z) Page.t) k pg :
  NoDup (pageKey <$> ps) ->
  (foldl (fun m pg => <[pageKey pg := pg]> m) m ps !! k = Some pg)
  <-> ((pg ∈ ps /\ pageKey pg = k)
       \/ ((k ∉ (pageKey <$> ps)) /\ m !! k = Some pg)).
Proof.
  revert m. induction ps as [|p ps IH]; intros m Hnd.
  - cbn [foldl]. rewrite fmap_nil. set_solver.
  - rewrite fmap_cons in Hnd |- *. apply NoDup_cons in Hnd as [Hp Hnd].
    cbn [foldl]. rewrite (IH _ Hnd), lookup_insert_Some, !elem_of_cons.
    naive_solver.
Qed.



Lemma filter_none {A} (f : A -> bool) (l : list A) :
  (forall x, In x l -> f x = false) -> List.filter f l = [].
Proof.
  induction l as [|x l IH]; intros Hf; simpl; [done|].
  rewrite (Hf x) by (by left). apply IH. intros; apply Hf; by right.
Qed.


(** The two import paths run the same step. *)
Lemma downloadVolume_importVolume a b vi now w :
  App.downloadVolume a b vi now w = App.importVolume a b vi now w.
Proof. reflexivity. Qed.






Lemma downloadSelectedVolume_handleFileImport clock a w :
  App.downloadSelectedVolume clock a w = App.handleFileImport clock a w.
Proof.
  unfold App.downloadSelectedVolume, App.handleFileImport, App.importManifest.
  destruct (App.manifest a) as [m|]; [|done].
  f_equal.
Qed.

(** The entry imported last for a volume number is an entry of the
    manifest for that number; where the numbers of a manifest are distinct
    it is the entry itself. *)
Lemma lastDeclared_In v vols vi :
  App.lastDeclared v vols = Some vi -> In vi vols /\ App.volume vi = v.
Proof.
  induction vols as [|x vols IH]; simpl; [done|].
  destruct (App.lastDeclared v vols) as [later|].
  - intros [= ->]. destruct (IH eq_refl). by split; [right|].
  - case_bool_decide; [|done]. intros [= ->]. by split; [left|].
Qed.

Lemma lastDeclared_unique vols vi :
  List.NoDup (List.map App.volume vols) -> In vi vols ->
  App.lastDeclared (App.volume vi) vols = Some vi.
Proof.
  induction vols as [|x vols IH]; simpl; [done|]. intros Hnd Hin.
  apply List.NoDup_cons_iff in Hnd as [Hx Hnd].
  destruct Hin as [-> | Hin].
  - destruct (App.lastDeclared (App.volume vi) vols) as [later|] eqn:E.
    + apply lastDeclared_In in E as [Hin Hv]. exfalso. apply Hx.
      rewrite <- Hv. by apply List.in_map.
    + by rewrite bool_decide_eq_true_2.
  - by rewrite (IH Hnd Hin).
Qed.

(** The imports keep the page records of the mirror uniquely keyed. *)
Lemma filter_keys_NoDup (f : Page.t -> bool) (l : list Page.t) :
  NoDup (pageKey <$> l) -> NoDup (pageKey <$> List.filter f l).
Proof.
  induction l as [|pg l IH]; [done|]. rewrite fmap_cons. intros Hnd.
  apply NoDup_cons in Hnd as [Hpg Hnd]. cbn [List.filter].
  destruct (f pg); [|by apply IH].
  rewrite fmap_cons. apply NoDup_cons. split; [|by apply IH].
  intros Hin. apply Hpg. apply list_elem_of_fmap in Hin as (pg' & Hk & Hin).
  apply list_elem_of_fmap. exists pg'. split; [done|].
  apply list_elem_of_In, List.filter_In in Hin as [Hin _].
  by apply list_elem_of_In.
Qed.

Lemma importVolume_pages_NoDup a b vi now w :
  NoDup (pageKey <$> App.pagesStore (App.mirror w)) ->
  NoDup (pageKey <$> App.pagesStore (App.mirror (App.importVolume a b vi now w))).
Proof.
  intros Hnd. cbn [App.importVolume App.mirror App.pagesStore].
  rewrite fmap_app. apply NoDup_app. split; [by apply filter_keys_NoDup|].
  split; [|apply readPages_keys_NoDup].
  intros k Hold Hnew.
  apply list_elem_of_fmap in Hold as (old & -> & Hold).
  apply list_elem_of_fmap in Hnew as (new & Hk & Hnew).
  apply list_elem_of_In, List.filter_In in Hold as [_ Hold].
  apply list_elem_of_In, readPages_inVolume in Hnew.
  apply bool_decide_eq_true in Hnew as [Hb Hv].
  apply negb_true_iff, bool_decide_eq_false in Hold. apply Hold.
  injection Hk as -> -> _. done.
Qed.

Lemma handleFileImport_pages_NoDup clock a w :
  NoDup (pageKey <$> App.pagesStore (App.mirror w)) ->
  NoDup (pageKey <$> App.pagesStore (App.mirror (App.handleFileImport clock a w))).
Proof.
  unfold App.handleFileImport, App.importManifest.
  destruct (App.manifest a) as [m|]; [|done]. intros Hnd.
  assert (forall vols tick w,
            NoDup (pageKey <$> App.pagesStore (App.mirror w)) ->
            NoDup (pageKey <$> App.pagesStore (App.mirror
                     (App.importVolumes App.importVolume clock a (App.id m)
                        vols tick w)))) as Hloop.
  { induction vols as [|vi vols IH]; intros tick w' Hw'; [done|].
    simpl. by apply IH, importVolume_pages_NoDup. }
  unfold App.addBook. destruct (List.find _ _); by apply Hloop.
Qed.



(** The scenario: volume 1 of [b1] had two pages; after the import of the
    archive in which it has one, one page record of the volume is left in
    the mirror and one in the store. *)
Example shrunk_volume_leaves_one_page :
  let before := Examples.imported in
  let after := App.handleFileImport Examples.clock Examples.onePage before in
  length (List.filter (App.inVolume Examples.b1 1)
            (App.pagesStore (App.mirror before))) = 2%nat
  /\ size (filter (fun kv => App.inVolume Examples.b1 1 kv.2 = true)
             (App.pages (App.db before))) = 2%nat
  /\ List.filter (App.inVolume Examples.b1 1) (App.pagesStore (App.mirror after))
     = [Page.mk Examples.b1 1 1 Examples.page1Text]
  /\ size (filter (fun kv => App.inVolume Examples.b1 1 kv.2 = true)
             (App.pages (App.db after))) = 1%nat
  /\ App.pages (App.db after) !! (Examples.b1, 1, 1)
     = Some (Page.mk Examples.b1 1 1 Examples.page1Text)
  /\ App.pages (App.db after) !! (Examples.b1, 1, 2) = None.
Proof. cbv zeta. repeat split; vm_compute; reflexivity. Qed.

(** ** The imports keep the store keyed *)

Lemma keyed_importVolume a b vi now w :
  App.keyed (App.db w) -> App.keyed (App.db (App.importVolume a b vi now w)).
Proof.
  intros Hk. unfold App.importVolume. cbn [App.db].
  by apply keyed_saveVolumeToDB, keyed_savePagesToDB, keyed_deletePagesFromDB.
Qed.

Lemma keyed_importVolumes clock a b vols tick w :
  App.keyed (App.db w) ->
  App.keyed (App.db (App.importVolumes App.importVolume clock a b vols tick w)).
Proof.
  revert tick w. induction vols as [|vi vols IH]; intros tick w Hk; [done|].
  simpl. by apply IH, keyed_importVolume.
Qed.

Lemma keyed_addBook m now w :
  App.keyed (App.db w) -> App.keyed (App.db (App.addBook m now w)).
Proof.
  intros Hk. unfold App.addBook.
  destruct (List.find _ _); cbn [App.db]; by apply keyed_saveBookToDB.
Qed.

Lemma keyed_handleFileImport clock a w :
  App.keyed (App.db w) -> App.keyed (App.db (App.handleFileImport clock a w)).
Proof.
  intros Hk. unfold App.handleFileImport, App.importManifest.
  destruct (App.manifest a); [|done].
  by apply keyed_addBook, keyed_importVolumes.
Qed.

Lemma handleDeleteBook_cascades_witness :
  let w' := App.handleDeleteBook true Examples.book_b1 Examples.imported in
  App.keyed (App.db Examples.imported)
  /\ (forall p, In p (App.pagesStore (App.mirror w')) ->
                ~ (Page.bookId p = Examples.b1
                   \/ Page.bookId p = Examples.b1 ++ JS.lit "_en"))
  /\ (forall k p, App.pages (App.db w') !! k = Some p ->
                  ~ (Page.bookId p = Examples.b1
                     \/ Page.bookId p = Examples.b1 ++ JS.lit "_en")).
Proof.
  cbv zeta.
  assert (App.keyed (App.db Examples.imported)) as Hk.
  { apply keyed_handleFileImport, keyed_empty. }
  split; [exact Hk|].
  pose proof (handleDeleteBook_cascades Examples.book_b1 Examples.imported Hk)
    as (_ & _ & Hp & _ & _ & Hdb).
  split; [exact Hp | exact Hdb].
Defined.

(** The library of the scenario holds a book, a volume and two pages; the
    delete leaves the mirror and the store empty. *)
Example delete_empties_library :
  let w' := App.handleDeleteBook true Examples.book_b1 Examples.imported in
  length (App.pagesStore (App.mirror Examples.imported)) = 2%nat
  /\ size (App.pages (App.db Examples.imported)) = 2%nat
  /\ App.mirror w' = Examples.emptyMirror
  /\ size (App.books (App.db w')) = 0%nat
  /\ size (App.volumes (App.db w')) = 0%nat
  /\ size (App.pages (App.db w')) = 0%nat.
Proof. cbv zeta. repeat split; vm_compute; reflexivity. Qed.

(** ** The two ways to run the offloaded search *)

(** C10: the scan in the worker and the inline fallback return the same
    array of results for every query, mode, page list and book list, on
    every runtime. *)
Theorem worker_and_fallback_agree `{JSONRuntime} (query : jsstring)
    (mode : SearchMode) (pages : list Page.t) (books : list BookRef.t) :
  SearchWorker.performSearch query mode pages books
  = UseSearchWorker.performSearchMainThread query mode pages books.
Proof.
  unfold SearchWorker.performSearch, UseSearchWorker.performSearchMainThread,
    SearchWorker.searchPage, SearchWorker.extractSnippet,
    SearchWorker.normalizeArabic, App.isAlefVariant, App.ARABIC_DIACRITICS.
  change (150 / 2) with 75. reflexivity.
Qed.

(** ** The search-result cache *)

Section CacheFacts.
Context {T : Type}.
Implicit Types (s : Performance.Search T) (c : Performance.Cache T).

Lemma keyOf_nonempty s : Performance.keyOf s <> [].
Proof.
  unfold Performance.keyOf, Performance.getSearchCacheKey. intros Hnil.
  apply List.app_eq_nil in Hnil as [Hmode _].
  destruct (Performance.mode s); vm_compute in Hmode; discriminate.
Qed.

Lemma mapGet_absent key c :
  ~ In key (List.map fst c) -> Performance.mapGet key c = None.
Proof.
  induction c as [|[k v] c IH]; simpl; [done|]. intros Hk.
  rewrite bool_decide_eq_false_2 by tauto. apply IH. tauto.
Qed.

Lemma mapSet_fresh key v c :
  ~ In key (List.map fst c) -> Performance.mapSet key v c = c ++ [(key, v)].
Proof.
  induction c as [|[k v'] c IH]; simpl; [done|]. intros Hk.
  rewrite bool_decide_eq_false_2 by tauto. rewrite IH by tauto. done.
Qed.

Lemma cacheOf_keys (l : list (Performance.Search T)) :
  List.map fst (Performance.cacheOf l) = List.map Performance.keyOf l.
Proof. unfold Performance.cacheOf. rewrite List.map_map. done. Qed.

Lemma mapGet_cacheOf (l : list (Performance.Search T)) s :
  List.NoDup (List.map Performance.keyOf l) -> In s l ->
  Performance.mapGet (Performance.keyOf s) (Performance.cacheOf l)
  = Some (Performance.mkCached (Performance.found s) (Performance.at_ s)).
Proof.
  induction l as [|x l IH]; simpl; [done|]. intros Hnd Hin.
  apply List.NoDup_cons_iff in Hnd as [Hx Hnd].
  destruct Hin as [-> | Hin].
  - by rewrite bool_decide_eq_true_2.
  - rewrite bool_decide_eq_false_2; [by apply IH|].
    intros Heq. apply Hx. rewrite Heq. by apply List.in_map.
Qed.

(** One more search in a cache of distinct keys: the oldest entry goes
    when the cache is full, and the new one is appended. *)
Lemma cacheSearchResults_step (l : list (Performance.Search T)) s :
  ~ In (Performance.keyOf s) (List.map Performance.keyOf l) ->
  Performance.cacheSearchResults (Performance.keyOf s) (Performance.found s)
    (Performance.at_ s) (Performance.cacheOf l)
  = Performance.cacheOf
      (drop (if (Performance.CACHE_SIZE <=? length l)%nat then 1 else 0)%nat l
       ++ [s]).
Proof.
  intros Hfresh. unfold Performance.cacheSearchResults.
  assert (length (Performance.cacheOf l) = length l) as ->.
  { unfold Performance.cacheOf. apply List.length_map. }
  destruct (Performance.CACHE_SIZE <=? length l)%nat eqn:Hfull.
  - destruct l as [|oldest l]; [done|].
    cbn [Performance.cacheOf List.map].
    assert (JS.truthy (Performance.keyOf oldest) = true) as ->.
    { pose proof (keyOf_nonempty oldest). by destruct (Performance.keyOf oldest). }
    cbn [Performance.mapDelete]. rewrite bool_decide_eq_true_2 by done.
    change (List.map _ l) with (Performance.cacheOf l).
    rewrite mapSet_fresh.
    + unfold Performance.cacheOf. by rewrite List.map_app.
    + rewrite cacheOf_keys. simpl in Hfresh. tauto.
  - rewrite mapSet_fresh by (by rewrite cacheOf_keys).
    unfold Performance.cacheOf. by rewrite drop_0, List.map_app.
Qed.

(** After any number of searches with distinct keys the cache holds the
    last [CACHE_SIZE] of them, oldest first. *)
Lemma cacheAll_recent (l : list (Performance.Search T)) :
  List.NoDup (List.map Performance.keyOf l) ->
  Performance.cacheAll l []
  = Performance.cacheOf (drop (length l - Performance.CACHE_SIZE) l).
Proof.
  induction l as [|s l IH] using rev_ind; intros Hnd; [done|].
  rewrite List.map_app in Hnd. apply List.NoDup_app_remove_r in Hnd as Hl.
  unfold Performance.cacheAll in *. rewrite foldl_app. cbn [foldl].
  rewrite (IH Hl), cacheSearchResults_step.
  - f_equal. rewrite length_drop, length_app. cbn [length].
    unfold Performance.CACHE_SIZE.
    destruct (50 <=? length l - (length l - 50))%nat eqn:E.
    + apply Nat.leb_le in E. rewrite drop_drop.
      rewrite drop_app_le by lia. do 2 f_equal. lia.
    + apply Nat.leb_gt in E.
      replace (length l - 50)%nat with 0%nat by lia.
      replace (length l + 1 - 50)%nat with 0%nat by lia. by rewrite !drop_0.
  - intros Hin. apply List.in_map_iff in Hin as (x & Hk & Hx).
    apply list_elem_of_In, subseteq_drop in Hx.
    apply (List.NoDup_remove_2 _ [] _) in Hnd. rewrite app_nil_r in Hnd.
    apply Hnd. rewrite <- Hk. apply List.in_map. by apply list_elem_of_In.
Qed.

Lemma getCached_stale key now c cached :
  Performance.mapGet key c = Some cached ->
  Performance.CACHE_TTL <= now - Performance.timestamp cached ->
  Performance.getCachedSearchResults key now c
  = (None, Performance.mapDelete key c).
Proof.
  intros Hget Hold. unfold Performance.getCachedSearchResults. rewrite Hget.
  destruct (now - Performance.timestamp cached <? Performance.CACHE_TTL) eqn:E;
    [lia | done].
Qed.

End CacheFacts.

(** C9: after [CACHE_SIZE + 1] searches with distinct keys have been
    cached, starting from an empty cache, a look-up within the time to
    live finds the results of each of the last [CACHE_SIZE] searches and
    misses the first one, which was evicted; and an entry that is as old
    as the time to live or older is a miss although it is present. *)
Theorem cache_keeps_most_recent {T} (searches : list (Performance.Search T))
    (now : Z) :
  length searches = S Performance.CACHE_SIZE ->
  List.NoDup (List.map Performance.keyOf searches) ->
  (forall s, In s searches -> now - Performance.at_ s < Performance.CACHE_TTL) ->
  let cache := Performance.cacheAll searches [] in
  List.map fst cache = drop 1 (List.map Performance.keyOf searches)
  /\ (forall i s, searches !! i = Some s ->
        Performance.getCachedSearchResults (Performance.keyOf s) now cache
        = (match i with O => None | S _ => Some (Performance.found s) end, cache))
  /\ (forall key cached later,
        Performance.mapGet key cache = Some cached ->
        Performance.CACHE_TTL <= later - Performance.timestamp cached ->
        fst (Performance.getCachedSearchResults key later cache) = None).
Proof.
  intros Hlen Hnd Hfresh. cbv zeta. rewrite (cacheAll_recent _ Hnd), Hlen.
  change (S Performance.CACHE_SIZE - Performance.CACHE_SIZE)%nat with 1%nat.
  split; [by rewrite cacheOf_keys, <- List.skipn_map|].
  split.
  - destruct searches as [|oldest rest]; [done|].
    change (drop 1 (oldest :: rest)) with rest.
    apply List.NoDup_cons_iff in Hnd as [Hold Hrest].
    intros [|i] s Hs; unfold Performance.getCachedSearchResults.
    + injection Hs as <-. rewrite mapGet_absent; [done|]. by rewrite cacheOf_keys.
    + cbn in Hs. apply list_elem_of_lookup_2, list_elem_of_In in Hs.
      rewrite (mapGet_cacheOf rest s Hrest Hs). cbn [Performance.timestamp].
      specialize (Hfresh s (or_intror Hs)).
      destruct (now - Performance.at_ s <? Performance.CACHE_TTL) eqn:E; [done | lia].
  - intros key cached later Hget Hstale.
    by rewrite (getCached_stale _ _ _ _ Hget Hstale).
Qed.

Lemma cache_keeps_most_recent_witness :
  length Examples.manySearches = S Performance.CACHE_SIZE
  /\ List.NoDup (List.map Performance.keyOf Examples.manySearches)
  /\ (forall s, In s Examples.manySearches ->
                1000 - Performance.at_ s < Performance.CACHE_TTL)
  /\ List.map fst (Performance.cacheAll Examples.manySearches [])
     = drop 1 (List.map Performance.keyOf Examples.manySearches).
Proof.
  assert (length Examples.manySearches = S Performance.CACHE_SIZE) as Hlen
    by reflexivity.
  assert (List.NoDup (List.map Performance.keyOf Examples.manySearches)) as Hnd.
  { apply NoDup_ListNoDup.
    apply (bool_decide_unpack (NoDup (List.map Performance.keyOf Examples.manySearches))).
    vm_compute. exact I. }
  assert (forall s, In s Examples.manySearches ->
                    1000 - Performance.at_ s < Performance.CACHE_TTL) as Hfresh.
  { intros s Hs. apply List.in_map_iff in Hs as (n & <- & Hn).
    cbn [Performance.at_]. unfold Performance.CACHE_TTL. lia. }
  split; [exact Hlen|]. split; [exact Hnd|]. split; [exact Hfresh|].
  exact (proj1 (cache_keeps_most_recent Examples.manySearches 1000 Hlen Hnd Hfresh)).
Defined.

(** The first of the fifty-one searches is a miss afterwards and the last
    a hit. *)
Example manySearches_first_and_last :
  let cache := Performance.cacheAll Examples.manySearches [] in
  length cache = 50%nat
  /\ fst (Performance.getCachedSearchResults
            (Performance.getSearchCacheKey [] root (JS.lit "all") []) 1000 cache)
     = None
  /\ fst (Performance.getCachedSearchResults
            (Performance.getSearchCacheKey (replicate 50 0x0627%N) root
               (JS.lit "all") []) 1000 cache)
     = Some [].
Proof. cbv zeta. repeat split; vm_compute; reflexivity. Qed.

(** A key made by [getSearchCacheKey] is never empty.  For the empty
    string as a key, which [cacheSearchResults] accepts, the test
    [if (oldestKey)] fails and nothing is evicted. *)
Lemma empty_oldest_key_stays {T} (v : Performance.CachedSearch T)
    (c : Performance.Cache T) key rs now :
  ~ In key (List.map fst (([], v) :: c)) ->
  Performance.cacheSearchResults key rs now (([], v) :: c)
  = (([], v) :: c) ++ [(key, Performance.mkCached rs now)].
Proof.
  intros Hfresh. unfold Performance.cacheSearchResults.
  cbn [JS.truthy].
  destruct (Performance.CACHE_SIZE <=? length (([], v) :: c))%nat;
    by apply mapSet_fresh.
Qed.

(* ===================================================================== *)
(** * Part III: further properties of the code                            *)
(* ===================================================================== *)

(** ** More on searching inside a string *)

Lemma indexOfFrom_bounds (pat s : jsstring) k r :
  JS.indexOfFrom pat s k = r -> r <> -1 ->
  k <= r /\ r + JS.len pat <= k + JS.len s.
Proof.
  intros Hr Hne. destruct (indexOfFrom_sound _ _ _ _ Hr Hne) as (pre & post & -> & ->).
  unfold JS.len. rewrite !length_app. lia.
Qed.

Lemma indexOf_bounds (s pat : jsstring) pos r :
  JS.indexOf s pat pos = r -> r <> -1 ->
  0 <= r /\ Z.min pos (JS.len s) <= r /\ r + JS.len pat <= JS.len s.
Proof.
  unfold JS.indexOf. intros Hr Hne.
  apply indexOfFrom_bounds in Hr as [Hlo Hhi]; [|done].
  unfold JS.len in *. rewrite length_drop in Hhi. lia.
Qed.

Lemma indexOf_empty (s : jsstring) pos :
  JS.indexOf s [] pos = Z.min (Z.max pos 0) (JS.len s).
Proof. unfold JS.indexOf. by destruct (drop _ s). Qed.

(** [indexOf] finds the first occurrence from the position on. *)
Lemma indexOfFrom_least (pat pre post : jsstring) k :
  JS.indexOfFrom pat (pre ++ pat ++ post) k <= k + JS.len pre.
Proof.
  revert k. induction pre as [|c pre IH]; intros k.
  - assert (JS.startsWith pat (pat ++ post) = true) as Hs.
    { apply startsWith_spec. by exists post. }
    simpl. destruct (pat ++ post); simpl in *; rewrite Hs; unfold JS.len; simpl; lia.
  - simpl. destruct (JS.startsWith pat (c :: pre ++ pat ++ post)).
    + unfold JS.len. lia.
    + specialize (IH (k + 1)). unfold JS.len in *. simpl length. lia.
Qed.

Lemma indexOf_zero_least (pat pre post : jsstring) :
  JS.indexOf (pre ++ pat ++ post) pat 0 <= JS.len pre.
Proof.
  unfold JS.indexOf.
  assert (Z.min (Z.max 0 0) (JS.len (pre ++ pat ++ post)) = 0) as ->.
  { unfold JS.len. lia. }
  simpl. apply (indexOfFrom_least pat pre post 0).
Qed.

(** ** The search of the application: what a result tells *)

Section SearchResultsFacts.
Context `{JSONRuntime}.

Lemma resultsAt_matchIndex books pg tts term offsets mc :
  List.map SearchResult.matchIndex (App.resultsAt books pg tts term offsets mc)
  = List.map (fun n => mc + Z.of_nat n) (seq 0 (length offsets)).
Proof.
  revert mc. induction offsets as [|i rest IH]; intros mc; [done|].
  cbn [App.resultsAt List.map length seq SearchResult.matchIndex].
  rewrite IH, <- List.seq_shift, List.map_map. f_equal; [lia|].
  apply List.map_ext. intros n. lia.
Qed.

Lemma resultsAt_title books pg tts term offsets mc r :
  In r (App.resultsAt books pg tts term offsets mc) ->
  SearchResult.bookTitle r = App.bookTitleFor books (Page.bookId pg).
Proof.
  revert mc. induction offsets as [|i rest IH]; intros mc; simpl; [done|].
  intros [<- | Hin]; [done | by eapply IH].
Qed.

Lemma snippetAt_length (tts term : jsstring) i :
  JS.len (App.snippetAt tts term i) <= JS.len term + 106.
Proof.
  unfold App.snippetAt, JS.substring.
  set (start := Z.max 0 (i - 50)).
  set (end_ := Z.min (JS.len tts) (i + JS.len term + 50)).
  set (a := Z.min (Z.max start 0) (JS.len tts)).
  set (b := Z.min (Z.max end_ 0) (JS.len tts)).
  assert (JS.len (take (Z.to_nat (Z.max a b - Z.min a b))
                       (drop (Z.to_nat (Z.min a b)) tts))
          <= JS.len term + 100) as Hcut.
  { unfold JS.len. rewrite length_take.
    assert (0 <= JS.len term) by (unfold JS.len; lia).
    unfold JS.len in *. subst a b start end_. lia. }
  assert (JS.len (JS.lit "...") = 3) as Hdots by reflexivity.
  destruct (0 <? start), (end_ <? JS.len tts);
    unfold JS.len in *; rewrite ?length_app; lia.
Qed.

Lemma resumes_apart text term from offsets :
  App.resumes text term from offsets ->
  (forall a, In a offsets ->
     Z.min from (JS.len text) <= a /\ 0 <= a /\ a + JS.len term <= JS.len text)
  /\ (forall i a b, offsets !! i = Some a -> offsets !! S i = Some b ->
        a + JS.len term <= b).
Proof.
  induction 1 as [from | from j rest Hj Hne Hrest [IHin IHchain]].
  - split; [by intros a [] | by intros [|i] a b].
  - apply indexOf_bounds in Hj as (H0 & Hfrom & Hend); [|done]. split.
    + intros a [<- | Ha]; [lia|]. destruct (IHin a Ha) as (? & ? & ?).
      unfold JS.len in *. lia.
    + intros [|i] a b Ha Hb.
      * injection Ha as <-. destruct rest as [|b' rest']; [done|].
        injection Hb as <-. destruct (IHin b' (or_introl eq_refl)).
        unfold JS.len in *. lia.
      * by apply (IHchain i).
Qed.

End SearchResultsFacts.

(** X1: a search never reports a page that the filters exclude or whose
    text does not contain the term: every result belongs to a page of
    [pagesStore] that passes the sect filter and the book selection, whose
    text for matching contains the term searched for, and carries the
    title looked up for that page. *)
Theorem performSearch_sound `{JSONRuntime} im mode sf sel books pages q rs :
  App.performSearch im mode sf sel books pages q = Some rs ->
  Forall (fun r =>
    exists pg,
      In pg pages
      /\ resultKey r = pageKey pg
      /\ (sf = all \/ App.getBookSect (Page.bookId pg) = sf)
      /\ (size sel = 0%nat \/ Page.bookId pg ∈ sel)
      /\ JS.contains (App.textForMatching mode pg)
                     (App.normalizedSearchTermOf mode im q)
      /\ SearchResult.bookTitle r = App.bookTitleFor books (Page.bookId pg)) rs.
Proof.
  intros Hrs. apply performSearch_results in Hrs as [_ ->].
  apply Forall_forall. intros r Hr. apply list_elem_of_In in Hr.
  apply List.in_flat_map in Hr as (pg & Hpg & Hr).
  apply List.filter_In in Hpg as [Hpg Hsel].
  exists pg. split; [done|]. split; [by eapply searchPage_key|].
  unfold App.pageSelected in Hsel. apply andb_true_iff in Hsel as [Hsect Hbooks].
  apply negb_true_iff, andb_false_iff in Hsect, Hbooks.
  split; [|split; [|split]].
  - destruct Hsect as [Hs | Hs]; apply bool_decide_eq_false in Hs.
    + left. by destruct (decide (sf = all)).
    + right. by destruct (decide (App.getBookSect (Page.bookId pg) = sf)).
  - destruct Hbooks as [Hb | Hb].
    + left. apply bool_decide_eq_false in Hb. lia.
    + right. apply negb_false_iff, bool_decide_eq_true in Hb. done.
  - destruct (decide (JS.indexOf (App.textForMatching mode pg)
                        (App.normalizedSearchTermOf mode im q) 0 = -1)) as [E|E].
    + exfalso. unfold App.searchPage in Hr. simpl in Hr. rewrite E in Hr. done.
    + by eapply indexOf_sound.
  - unfold App.searchPage in Hr. rewrite matchLoop_resultsAt in Hr.
    by eapply resultsAt_title.
Qed.

Lemma performSearch_sound_witness :
  exists rs,
    App.performSearch arabic root shia ∅ [Examples.book_b1]
      Examples.scenarioPages (JS.lit "علم") = Some rs
    /\ length rs = 1%nat
    /\ Forall (fun r => exists pg, In pg Examples.scenarioPages
                                   /\ resultKey r = pageKey pg) rs.
Proof.
  eexists. split; [vm_compute; reflexivity|]. split; [reflexivity|].
  eapply Forall_impl.
  - apply (performSearch_sound arabic root shia ∅ [Examples.book_b1]
             Examples.scenarioPages (JS.lit "علم")).
    vm_compute. reflexivity.
  - intros r (pg & Hin & Hkey & _). by exists pg.
Defined.

(** X2: the results of one page are numbered: their [matchIndex] fields
    are 0, 1, ... in the order in which the results are listed. *)
Theorem searchPage_numbered `{JSONRuntime} mode books term pg :
  List.map SearchResult.matchIndex (App.searchPage mode books term pg)
  = List.map Z.of_nat (seq 0 (length (App.searchPage mode books term pg))).
Proof.
  unfold App.searchPage.
  rewrite matchLoop_resultsAt, resultsAt_matchIndex, resultsAt_length.
  apply List.map_ext. intros n. lia.
Qed.

(** X3: a snippet is never longer than the term plus fifty code units of
    context on either side and the two ellipses. *)
Theorem snippet_length_bounded `{JSONRuntime} mode books term pg :
  Forall (fun r => JS.len (SearchResult.snippet r) <= JS.len term + 106)
         (App.searchPage mode books term pg).
Proof.
  apply Forall_forall. intros r Hr. apply list_elem_of_In in Hr.
  unfold App.searchPage in Hr. rewrite matchLoop_resultsAt in Hr.
  apply resultsAt_snippet in Hr as (i & _ & ->). apply snippetAt_length.
Qed.

(** X4: the occurrences behind the results of a page lie inside the text
    searched and do not overlap: each starts at or after the end of the
    one before. *)
Theorem searchPage_occurrences_apart `{JSONRuntime} mode books term pg :
  let text := App.textForMatching mode pg in
  exists offsets,
    App.searchPage mode books term pg
    = App.resultsAt books pg (App.textToSearch pg) term offsets 0
    /\ (forall a, In a offsets ->
          0 <= a /\ JS.substring text a (a + JS.len term) = term)
    /\ (forall i a b, offsets !! i = Some a -> offsets !! S i = Some b ->
          a + JS.len term <= b).
Proof.
  cbv zeta. exists (App.matchOffsets 3 (App.textForMatching mode pg) term 0 0).
  split; [apply matchLoop_resultsAt|].
  pose proof (matchOffsets_resumes 3 (App.textForMatching mode pg) term 0 0) as Hres.
  destruct (resumes_apart _ _ _ _ Hres) as [Hin Hchain].
  split; [|exact Hchain].
  intros a Ha. destruct (Hin a Ha) as (_ & H0 & Hend). split; [done|].
  destruct (resumes_occurrences _ _ _ _ a Hres Ha) as (pre & post & Ht & Hlen).
  rewrite Ht in *. unfold JS.substring, JS.len in *.
  rewrite !length_app in *.
  replace (Z.min (Z.min (Z.max a 0) _) (Z.min (Z.max (a + _) 0) _)) with a by lia.
  replace (Z.max (Z.min (Z.max a 0) _) (Z.min (Z.max (a + _) 0) _) - a)
    with (Z.of_nat (length term)) by lia.
  rewrite Nat2Z.id, <- Hlen, Nat2Z.id, drop_app_length, take_app_length. done.
Qed.

(** X5: a query that normalises to nothing (hamzas and diacritics only)
    matches everywhere: every page the filters let through gets exactly
    three results, all cut at offset 0. *)
Theorem performSearch_empty_term `{JSONRuntime} im mode sf sel books pages q :
  JS.trim q <> [] ->
  App.normalizedSearchTermOf mode im q = [] ->
  App.performSearch im mode sf sel books pages q
  = Some (flat_map
            (fun pg => App.resultsAt books pg (App.textToSearch pg) [] [0; 0; 0] 0)
            (List.filter (App.pageSelected sf sel) pages)).
Proof.
  intros Hq Hterm. rewrite performSearch_runs by done. rewrite Hterm.
  f_equal. apply List.flat_map_ext. intros pg.
  unfold App.searchPage. rewrite matchLoop_resultsAt. f_equal.
  assert (JS.indexOf (App.textForMatching mode pg) [] 0 = 0) as Hi.
  { rewrite indexOf_empty. unfold JS.len. lia. }
  cbn [App.matchOffsets]. change (JS.len []) with 0.
  rewrite Hi, Z.add_0_r, Hi, Z.add_0_r, Hi. reflexivity.
Qed.

Lemma performSearch_empty_term_witness :
  JS.trim (JS.lit "ءً") <> []
  /\ App.normalizedSearchTermOf root arabic (JS.lit "ءً") = []
  /\ (length <$> App.performSearch arabic root all ∅ [Examples.book_b1]
                   Examples.scenarioPages (JS.lit "ءً")) = Some 6%nat.
Proof.
  assert (JS.trim (JS.lit "ءً") <> []) as Hq by (vm_compute; discriminate).
  assert (App.normalizedSearchTermOf root arabic (JS.lit "ءً") = []) as Hterm
    by reflexivity.
  split; [exact Hq|]. split; [exact Hterm|].
  rewrite (performSearch_empty_term arabic root all ∅ [Examples.book_b1]
             Examples.scenarioPages (JS.lit "ءً") Hq Hterm).
  reflexivity.
Defined.



(** ** More on normalisation *)

(** One pass over a single code unit, decided. *)
Ltac unit_pass c :=
  match goal with
  | |- context [JS.replaceClass ?cls ?r [c]] =>
    rewrite (replaceClass_unit cls r c); cbv beta;
    let E := fresh "E" in
    destruct (cls c) eqn:E; cbv beta in E
  end.

Lemma worker_normalizeArabic_app (s t : jsstring) :
  SearchWorker.normalizeArabic (s ++ t)
  = SearchWorker.normalizeArabic s ++ SearchWorker.normalizeArabic t.
Proof. unfold SearchWorker.normalizeArabic. by rewrite !replaceClass_app. Qed.

Lemma normalizeArabic_unit_clean c : Forall isClean (App.normalizeArabic [c]).
Proof.
  unfold App.normalizeArabic.
  repeat (unit_pass c; [by repeat constructor|]).
  by repeat constructor.
Qed.

(** X7: the normalised text holds none of the code units that
    normalisation strips or folds: no diacritic, no alef variant, no alef
    maqsura or yaa with hamza, no taa marbuta, no waw with hamza and no
    hamza. *)
Theorem normalizeArabic_clean (s : jsstring) :
  Forall isClean (App.normalizeArabic s).
Proof.
  induction s as [|c s IH]; [constructor|].
  rewrite normalizeArabic_cons. apply Forall_app. split; [|done].
  apply normalizeArabic_unit_clean.
Qed.

Lemma normalizeArabic_length (s : jsstring) :
  (length (App.normalizeArabic s) <= length s)%nat.
Proof.
  induction s as [|c s IH]; [done|].
  rewrite normalizeArabic_cons, length_app. cbn [length].
  assert (length (App.normalizeArabic [c]) <= 1)%nat; [|lia].
  unfold App.normalizeArabic. repeat (unit_pass c; [simpl; lia|]). simpl. lia.
Qed.

(** X8: normalisation works code unit by code unit.  It distributes over
    concatenation, so the normalised flat text of a page is the join of
    the normalised paragraphs, and it never lengthens a text. *)
Theorem normalizeArabic_distributes (parts : list jsstring) (s t : jsstring) :
  App.normalizeArabic (s ++ t) = App.normalizeArabic s ++ App.normalizeArabic t
  /\ App.normalizeArabic (PageFiles.join parts (JS.lit " "))
     = PageFiles.join (List.map App.normalizeArabic parts) (JS.lit " ")
  /\ (length (App.normalizeArabic s) <= length s)%nat.
Proof.
  split; [apply normalizeArabic_app|]. split; [|apply normalizeArabic_length].
  induction parts as [|p parts IH]; [done|].
  destruct parts as [|p' parts]; [done|].
  change (PageFiles.join (p :: p' :: parts) (JS.lit " "))
    with (p ++ JS.lit " " ++ PageFiles.join (p' :: parts) (JS.lit " ")).
  rewrite !normalizeArabic_app, IH. reflexivity.
Qed.

Lemma worker_normalizeArabic_unit c :
  SearchWorker.normalizeArabic (SearchWorker.normalizeArabic [c])
  = SearchWorker.normalizeArabic [c].
Proof.
  unfold SearchWorker.normalizeArabic.
  repeat (unit_pass c; [done|]).
  repeat match goal with
         | E : _ = false |- _ => rewrite (replaceClass_unit _ _ c); cbv beta;
                                 rewrite E; clear E
         end.
  done.
Qed.

(** X9: the normalisation of the search worker is idempotent as well. *)
Theorem worker_normalizeArabic_idempotent (s : jsstring) :
  SearchWorker.normalizeArabic (SearchWorker.normalizeArabic s)
  = SearchWorker.normalizeArabic s.
Proof.
  induction s as [|c s IH]; [done|].
  change (c :: s) with ([c] ++ s).
  rewrite !worker_normalizeArabic_app. by rewrite worker_normalizeArabic_unit, IH.
Qed.

Lemma normalizeArabic_unit_alike c :
  normalisedAlike c -> App.normalizeArabic [c] = SearchWorker.normalizeArabic [c].
Proof.
  intros (Hw & Hh & Ht).
  unfold App.normalizeArabic, SearchWorker.normalizeArabic.
  unit_pass c; [done|]. unit_pass c; [done|].
  assert ((c =? 0x0624)%N = false) as E24 by (by apply N.eqb_neq).
  assert ((c =? 0x0621)%N = false) as E21 by (by apply N.eqb_neq).
  assert ((c =? 0x0640)%N = false) as E40 by (by apply N.eqb_neq).
  destruct (c =? 0x0649)%N eqn:E49; [apply N.eqb_eq in E49 as ->; reflexivity|].
  destruct (c =? 0x0626)%N eqn:E26; [apply N.eqb_eq in E26 as ->; reflexivity|].
  destruct (c =? 0x0629)%N eqn:E29; [apply N.eqb_eq in E29 as ->; reflexivity|].
  rewrite !(replaceClass_unit _ _ c). unfold App.isYaaVariant, App.isTaaMarbuta,
    App.isHamza. cbv beta.
  rewrite ?E24, ?E21, ?E40, ?E49, ?E26, ?E29. cbn [orb].
  rewrite !(replaceClass_unit _ _ c). cbv beta.
  rewrite ?E24, ?E21, ?E40, ?E49, ?E26, ?E29. cbn [orb].
  rewrite ?(replaceClass_unit _ _ c). cbv beta.
  rewrite ?E24, ?E21, ?E40, ?E49, ?E26, ?E29. cbn [orb].
  rewrite ?(replaceClass_unit _ _ c). cbv beta.
  rewrite ?E24, ?E21, ?E40, ?E49, ?E26, ?E29. cbn [orb].
  rewrite ?(replaceClass_unit _ _ c). cbv beta.
  rewrite ?E24, ?E21, ?E40, ?E49, ?E26, ?E29. cbn [orb].
  reflexivity.
Qed.

(** X10: on a text without waw with hamza, hamza and tatweel the
    normalisation of the application and that of the search worker give
    the same result. *)
Theorem normalisations_agree (s : jsstring) :
  Forall normalisedAlike s ->
  App.normalizeArabic s = SearchWorker.normalizeArabic s.
Proof.
  induction 1 as [|c s Hc _ IH]; [done|].
  rewrite normalizeArabic_cons. change (c :: s) with ([c] ++ s).
  rewrite worker_normalizeArabic_app, IH. f_equal.
  by apply normalizeArabic_unit_alike.
Qed.

Lemma normalisations_agree_witness :
  Forall normalisedAlike (JS.lit "إِنَّ الصَّلَاةَ")
  /\ App.normalizeArabic (JS.lit "إِنَّ الصَّلَاةَ")
     = SearchWorker.normalizeArabic (JS.lit "إِنَّ الصَّلَاةَ").
Proof.
  assert (Forall normalisedAlike (JS.lit "إِنَّ الصَّلَاةَ")) as Hs.
  { vm_compute. repeat constructor; discriminate. }
  split; [exact Hs | exact (normalisations_agree _ Hs)].
Defined.

(** ** The order of the substitution keys *)

Lemma insertByLength_perm k (l : list jsstring) : App.insertByLength k l ≡ₚ k :: l.
Proof.
  induction l as [|x l IH]; [done|]. simpl.
  destruct (length x <? length k)%nat; [done|].
  by rewrite IH, Permutation_swap.
Qed.

Lemma lengthsDescending_cons x (l : list jsstring) :
  App.lengthsDescending (x :: l) = true <->
  (forall y, In y l -> (length y <= length x)%nat)
  /\ App.lengthsDescending l = true.
Proof.
  revert x. induction l as [|y l IH]; intros x.
  - simpl. split; [intros _; by split | done].
  - change (App.lengthsDescending (x :: y :: l))
      with ((length y <=? length x)%nat && App.lengthsDescending (y :: l)).
    rewrite andb_true_iff, Nat.leb_le. split.
    + intros [Hyx Hl]. split; [|done]. intros z [<- | Hz]; [done|].
      apply IH in Hl as [Hl _]. specialize (Hl z Hz). lia.
    + intros [Hall Hl]. split; [|done]. apply Hall. by left.
Qed.

Lemma insertByLength_sorted k (l : list jsstring) :
  App.lengthsDescending l = true ->
  App.lengthsDescending (App.insertByLength k l) = true.
Proof.
  induction l as [|x l IH]; intros Hl; [done|]. simpl.
  destruct (length x <? length k)%nat eqn:E.
  - apply Nat.ltb_lt in E. apply lengthsDescending_cons. split; [|done].
    apply lengthsDescending_cons in Hl as [Hall _].
    intros y [<- | Hy]; [lia|]. specialize (Hall y Hy). lia.
  - apply Nat.ltb_ge in E. apply lengthsDescending_cons in Hl as [Hall Hl].
    apply lengthsDescending_cons. split; [|by apply IH].
    intros y Hy. apply list_elem_of_In in Hy. rewrite insertByLength_perm in Hy.
    apply list_elem_of_In in Hy as [<- | Hy]; [done | by apply Hall].
Qed.

Lemma insertByLength_stable n k (l : list jsstring) :
  App.lengthsDescending l = true ->
  keysOfLength n (App.insertByLength k l) = keysOfLength n (l ++ [k]).
Proof.
  unfold keysOfLength. induction l as [|x l IH]; intros Hl; [done|]. simpl.
  apply lengthsDescending_cons in Hl as [Hall Hl].
  destruct (length x <? length k)%nat eqn:E.
  - apply Nat.ltb_lt in E. rewrite List.filter_app. simpl.
    destruct (length k =? n)%nat eqn:Ek; [|by rewrite app_nil_r].
    apply Nat.eqb_eq in Ek.
    assert ((length x =? n)%nat = false) as -> by (apply Nat.eqb_neq; lia).
    rewrite (filter_none _ l); [done|].
    intros y Hy. specialize (Hall y Hy). apply Nat.eqb_neq. lia.
  - simpl. rewrite (IH Hl). by destruct (length x =? n)%nat.
Qed.

Lemma sortByLengthDesc_snoc ks k :
  App.sortByLengthDesc (ks ++ [k]) = App.insertByLength k (App.sortByLengthDesc ks).
Proof. unfold App.sortByLengthDesc. by rewrite foldl_app. Qed.

Lemma sortByLengthDesc_perm (ks : list jsstring) : App.sortByLengthDesc ks ≡ₚ ks.
Proof.
  induction ks as [|k ks IH] using rev_ind; [done|].
  by rewrite sortByLengthDesc_snoc, insertByLength_perm, IH, Permutation_cons_append.
Qed.

(** X11: the sort that [romanToArabic] applies to the keys puts every
    list of keys in an order of non-increasing length, keeps all of them,
    and leaves keys of equal length in the order they had. *)
Theorem sortByLengthDesc_sorts (ks : list jsstring) :
  App.lengthsDescending (App.sortByLengthDesc ks) = true
  /\ App.sortByLengthDesc ks ≡ₚ ks
  /\ forall n, keysOfLength n (App.sortByLengthDesc ks) = keysOfLength n ks.
Proof.
  induction ks as [|k ks (Hsorted & Hperm & Hstable)] using rev_ind.
  - by repeat split.
  - rewrite sortByLengthDesc_snoc. split; [by apply insertByLength_sorted|].
    split.
    + by rewrite insertByLength_perm, Hperm, Permutation_cons_append.
    + intros n. rewrite insertByLength_stable by done.
      unfold keysOfLength in *. by rewrite !List.filter_app, Hstable.
Qed.

(** ** What transliteration consumes and what it lets through *)

Lemma replaceAllCI_go_units key repl (s : jsstring) skip x :
  In x (JS.replaceAllCI_go key repl s skip) -> In x s \/ In x repl.
Proof.
  revert skip. induction s as [|c s IH]; intros skip; [done|].
  cbn [JS.replaceAllCI_go]. destruct skip as [|skip].
  - destruct (JS.startsWithCI key (c :: s)).
    + intros Hx. apply List.in_app_or in Hx as [Hx | Hx]; [by right|].
      apply IH in Hx as [Hx | Hx]; [left; by right | by right].
    + intros [<- | Hx]; [left; by left|].
      apply IH in Hx as [Hx | Hx]; [left; by right | by right].
  - intros Hx. apply IH in Hx as [Hx | Hx]; [left; by right | by right].
Qed.

Lemma replaceAllCI_single_units k repl (s : jsstring) x :
  In x (JS.replaceAllCI [k] repl s) ->
  In x repl \/ (In x s /\ JS.lowerUnit k <> JS.lowerUnit x).
Proof.
  unfold JS.replaceAllCI. induction s as [|c s IH]; [done|].
  cbn [JS.replaceAllCI_go JS.startsWithCI length Nat.sub].
  rewrite andb_true_r.
  destruct (JS.lowerUnit k =? JS.lowerUnit c)%N eqn:E.
  - intros Hx. apply List.in_app_or in Hx as [Hx | Hx]; [by left|].
    apply IH in Hx as [Hx | [Hx Hne]]; [by left | right; split; [by right | done]].
  - apply N.eqb_neq in E. intros [<- | Hx]; [right; split; [by left | done]|].
    apply IH in Hx as [Hx | [Hx Hne]]; [by left | right; split; [by right | done]].
Qed.


Lemma lookupKey_In key :
  In key (App.keys App.ROMAN_TO_ARABIC) ->
  In (key, App.lookupKey App.ROMAN_TO_ARABIC key) App.ROMAN_TO_ARABIC.
Proof.
  generalize App.ROMAN_TO_ARABIC. intros table.
  induction table as [|[k v] table IH]; [done|]. simpl.
  case_bool_decide as Hk.
  - intros _. left. by rewrite Hk.
  - intros [Heq | Hin]; [done | right; by apply IH].
Qed.

(** The table, read once: every value is made of spaces and code units
    beyond ASCII, and every key begins with an ASCII letter or the
    apostrophe. *)
Lemma table_shape key :
  In key (App.keys App.ROMAN_TO_ARABIC) ->
  Forall (fun x => isValueUnit x = true) (App.lookupKey App.ROMAN_TO_ARABIC key)
  /\ exists p rest, key = p :: rest /\ isKeyStart (JS.lowerUnit p) = true.
Proof.
  intros Hkey. apply lookupKey_In in Hkey. revert Hkey.
  generalize (App.lookupKey App.ROMAN_TO_ARABIC key). intros value Hin.
  assert (forallb (fun kv =>
            forallb isValueUnit kv.2
            && match kv.1 with
               | p :: _ => isKeyStart (JS.lowerUnit p)
               | [] => false
               end) App.ROMAN_TO_ARABIC = true) as Htable
    by (vm_compute; reflexivity).
  rewrite List.forallb_forall in Htable. specialize (Htable _ Hin).
  cbn [fst snd] in Htable. apply andb_true_iff in Htable as [Hv Hk]. split.
  - apply Forall_forall. intros x Hx. rewrite List.forallb_forall in Hv.
    apply Hv. by apply list_elem_of_In.
  - destruct key as [|p rest]; [done|]. by exists p, rest.
Qed.

Lemma sortedKeys_keys key :
  In key App.sortedKeys <-> In key (App.keys App.ROMAN_TO_ARABIC).
Proof.
  unfold App.sortedKeys. rewrite <- !list_elem_of_In.
  by rewrite sortByLengthDesc_perm.
Qed.

(** A key start is not a value unit, also with the case put aside. *)
Lemma value_unit_not_key_start x p :
  isValueUnit x = true -> isKeyStart (JS.lowerUnit p) = true ->
  JS.lowerUnit x <> JS.lowerUnit p.
Proof.
  unfold isValueUnit, isKeyStart, JS.lowerUnit. intros Hx Hp.
  destruct ((0x41 <=? x) && (x <=? 0x5A))%N eqn:Ex,
           ((0x41 <=? p) && (p <=? 0x5A))%N eqn:Ep;
    rewrite ?orb_true_iff, ?andb_true_iff, ?andb_false_iff, ?N.leb_le,
      ?N.leb_gt, ?N.eqb_eq in *; lia.
Qed.

(** Passes that substitute values leave a text free of a key start [p]
    free of it. *)
Lemma applyKeys_keeps_free p (ks : list jsstring) (s : jsstring) :
  isKeyStart (JS.lowerUnit p) = true ->
  (forall key, In key ks -> In key (App.keys App.ROMAN_TO_ARABIC)) ->
  Forall (fun x => JS.lowerUnit x <> JS.lowerUnit p) s ->
  Forall (fun x => JS.lowerUnit x <> JS.lowerUnit p) (App.applyKeys ks s).
Proof.
  intros Hp. revert s. unfold App.applyKeys.
  induction ks as [|key ks IH]; intros s Hks Hs; [done|].
  cbn [foldl]. apply IH; [intros; apply Hks; by right|].
  apply Forall_forall. intros x Hx. apply list_elem_of_In in Hx.
  apply replaceAllCI_go_units in Hx as [Hx | Hx].
  - rewrite Forall_forall in Hs. apply Hs. by apply list_elem_of_In.
  - destruct (table_shape key (Hks key (or_introl eq_refl))) as [Hv _].
    rewrite Forall_forall in Hv. apply value_unit_not_key_start; [|done].
    apply Hv. by apply list_elem_of_In.
Qed.

(** X12: a letter that has an entry of its own in the substitution table
    does not survive transliteration, in either case: no code unit of
    [romanToArabic s] is that letter. *)
Theorem romanToArabic_consumes_letter (s : jsstring) k :
  In [k] (App.keys App.ROMAN_TO_ARABIC) ->
  Forall (fun x => JS.lowerUnit x <> JS.lowerUnit k) (App.romanToArabic s).
Proof.
  intros Hk. pose proof (proj2 (sortedKeys_keys [k]) Hk) as Hsorted.
  apply List.in_split in Hsorted as (before & after & Hsplit).
  destruct (table_shape [k] Hk) as [Hvalue (p & rest & [= <- <-] & Hstart)].
  unfold App.romanToArabic, App.applyKeys. rewrite Hsplit, foldl_app. cbn [foldl].
  apply (applyKeys_keeps_free k after); [done| |].
  - intros key Hkey. apply (proj1 (sortedKeys_keys key)).
    rewrite Hsplit. apply List.in_or_app. right. by right.
  - apply Forall_forall. intros x Hx. apply list_elem_of_In in Hx.
    apply replaceAllCI_single_units in Hx as [Hx | [_ Hx]]; [|done].
    rewrite Forall_forall in Hvalue. apply value_unit_not_key_start; [|done].
    apply Hvalue. by apply list_elem_of_In.
Qed.

Lemma romanToArabic_consumes_letter_witness :
  In [0x73%N] (App.keys App.ROMAN_TO_ARABIC)
  /\ Forall (fun x => JS.lowerUnit x <> JS.lowerUnit 0x73%N)
            (App.romanToArabic (JS.lit "Salam, sister")).
Proof.
  assert (In [0x73%N] (App.keys App.ROMAN_TO_ARABIC)) as Hk.
  { apply list_elem_of_In.
    apply (bool_decide_unpack ([0x73%N] ∈ App.keys App.ROMAN_TO_ARABIC)).
    vm_compute. exact I. }
  split; [exact Hk | exact (romanToArabic_consumes_letter _ _ Hk)].
Defined.





(** ** The mirror and the store stay in step *)

Lemma consistent_empty : consistent Examples.emptyWorld.
Proof.
  split; [apply keyed_empty|]. split; [constructor|].
  repeat split; simpl; try done; by rewrite lookup_empty.
Qed.

Lemma updateBook_ids bookId f (bs : list Book.t) :
  (forall b, Book.id (f b) = Book.id b) ->
  List.map Book.id (App.updateBook bookId f bs) = List.map Book.id bs.
Proof.
  intros Hf. induction bs as [|b bs IH]; [done|]. simpl.
  case_bool_decide; simpl; [by rewrite Hf | by rewrite IH].
Qed.

Lemma updateBook_In bookId f (bs : list Book.t) existing b' :
  List.NoDup (List.map Book.id bs) ->
  List.find (fun b => bool_decide (Book.id b = bookId)) bs = Some existing ->
  In b' (App.updateBook bookId f bs)
  <-> b' = f existing \/ (In b' bs /\ Book.id b' <> bookId).
Proof.
  induction bs as [|b bs IH]; [done|]. simpl. intros Hnd Hfind.
  apply List.NoDup_cons_iff in Hnd as [Hb Hnd].
  case_bool_decide as Hid.
  - injection Hfind as <-. simpl. split.
    + intros [<- | Hin]; [by left|]. right. split; [by right|].
      intros Heq. apply Hb. rewrite Hid, <- Heq. by apply List.in_map.
    + intros [-> | [[-> | Hin] Hne]]; [by left | done | by right].
  - simpl. rewrite (IH Hnd Hfind). split.
    + intros [<- | [-> | [Hin Hne]]]; [right; split; [by left | done] | by left |].
      right. split; [by right | done].
    + intros [-> | [[<- | Hin] Hne]]; [right; by left | by left |].
      right. right. by split.
Qed.

Lemma find_none_id bookId (bs : list Book.t) :
  List.find (fun b => bool_decide (Book.id b = bookId)) bs = None ->
  ~ In bookId (List.map Book.id bs).
Proof.
  intros Hfind Hin. apply List.in_map_iff in Hin as (b & Hid & Hin).
  eapply List.find_none in Hfind; [|exact Hin]. simpl in Hfind.
  by apply bool_decide_eq_false in Hfind.
Qed.

Lemma find_some_id bookId (bs : list Book.t) b :
  List.find (fun b => bool_decide (Book.id b = bookId)) bs = Some b ->
  In b bs /\ Book.id b = bookId.
Proof.
  intros Hfind. apply List.find_some in Hfind as [Hin Hid].
  by apply bool_decide_eq_true in Hid.
Qed.

Lemma consistent_importVolume a b vi now w :
  consistent w -> consistent (App.importVolume a b vi now w).
Proof.
  intros (Hkeyed & Hnd & Hbooks & Hvols & Hpages).
  split; [by apply keyed_importVolume|]. split; [done|]. split; [done|].
  destruct Hkeyed as (_ & Hkv & Hkp). split.
  - intros v. cbn [App.importVolume App.mirror App.db App.volumesStore
                   App.saveVolumeToDB App.savePagesToDB App.deletePagesFromDB
                   App.volumes].
    rewrite List.in_app_iff, List.filter_In, lookup_insert_Some, <- Hvols.
    cbn [In]. unfold App.isVolume, App.volumeKey. cbn.
    rewrite negb_true_iff, bool_decide_eq_false. split.
    + intros [[Hin Hne] | [<- | []]]; [|by left]. right. split; [|done].
      intros [= Hb Hv]. apply Hne. by split.
    + intros [[_ <-] | [Hne Hin]]; [right; by left|]. left. split; [done|].
      intros [Hb Hv]. apply Hne. by rewrite Hb, Hv.
  - intros p. cbn [App.importVolume App.mirror App.db App.pagesStore
                   App.saveVolumeToDB App.savePagesToDB App.deletePagesFromDB
                   App.pages].
    rewrite put_pages_lookup by apply readPages_keys_NoDup.
    rewrite List.in_app_iff, List.filter_In, map_lookup_filter_Some, <- Hpages.
    rewrite list_elem_of_In. cbn [snd]. unfold App.inVolume at 1.
    rewrite negb_true_iff, bool_decide_eq_false. split.
    + intros [[Hin Hne] | Hin]; [|by left]. right. split; [|done].
      intros Hk. apply list_elem_of_fmap in Hk as (new & Hk & Hnew).
      apply list_elem_of_In, readPages_inVolume, bool_decide_eq_true in Hnew
        as [Hb Hv].
      apply Hne. injection Hk as -> -> _. done.
    + intros [[Hin _] | [_ [Hin Hne]]]; [by right | by left].
Qed.

Lemma consistent_importVolumes clock a b vols tick w :
  consistent w ->
  consistent (App.importVolumes App.importVolume clock a b vols tick w).
Proof.
  revert tick w. induction vols as [|vi vols IH]; intros tick w Hw; [done|].
  simpl. by apply IH, consistent_importVolume.
Qed.

Lemma consistent_addBook m now w :
  consistent w -> consistent (App.addBook m now w).
Proof.
  intros (Hkeyed & Hnd & Hbooks & Hvols & Hpages).
  split; [by apply keyed_addBook|]. unfold App.addBook.
  destruct (List.find _ _) as [existing|] eqn:Hfind;
    cbn [App.mirror App.db App.booksStore App.volumesStore App.pagesStore
         App.saveBookToDB App.books App.volumes App.pages Book.id].
  - destruct (find_some_id _ _ _ Hfind) as [Hin Hid].
    split; [by rewrite updateBook_ids|]. split; [|done].
    intros b'. rewrite (updateBook_In _ _ _ existing b' Hnd Hfind).
    rewrite lookup_insert_Some, <- Hbooks, Hid. split.
    + intros [-> | [Hb' Hne]]; [by left|]. right. by split.
    + intros [[_ <-] | [Hne Hb']]; [by left|]. right. by split.
  - apply find_none_id in Hfind. split.
    + rewrite List.map_app. apply List.NoDup_app; [done | |].
      * cbn. constructor; [by intros [] | constructor].
      * intros x Hx [<- | []]. done.
    + split; [|done]. intros b'.
      rewrite List.in_app_iff, lookup_insert_Some, <- Hbooks. cbn [In]. split.
      * intros [Hb' | [<- | []]]; [|by left]. right. split; [|done].
        intros Heq. apply Hfind. rewrite Heq. by apply List.in_map.
      * intros [[_ <-] | [_ Hb']]; [right; by left | by left].
Qed.

(** X14: an import keeps the mirror and the store in step: if they agree
    before [handleFileImport] (or one round of [downloadSelectedVolumes]),
    they agree after it, for books, volumes and pages alike. *)
Theorem import_keeps_consistent clock a w :
  consistent w ->
  consistent (App.handleFileImport clock a w)
  /\ consistent (App.downloadSelectedVolume clock a w).
Proof.
  intros Hw.
  assert (consistent (App.handleFileImport clock a w)) as Hfile.
  { unfold App.handleFileImport, App.importManifest.
    destruct (App.manifest a) as [m|]; [|done].
    by apply consistent_addBook, consistent_importVolumes. }
  split; [exact Hfile|].
  pose proof (downloadSelectedVolume_handleFileImport clock a w) as Hsame.
  congruence.
Qed.

Lemma import_keeps_consistent_witness :
  consistent Examples.emptyWorld
  /\ consistent (App.handleFileImport Examples.clock Examples.twoPages
                   Examples.emptyWorld).
Proof.
  split; [exact consistent_empty|].
  exact (proj1 (import_keeps_consistent Examples.clock Examples.twoPages
                  Examples.emptyWorld consistent_empty)).
Defined.

Lemma consistent_imported : consistent Examples.imported.
Proof.
  unfold Examples.imported, App.handleFileImport, App.importManifest.
  destruct (App.manifest Examples.twoPages) as [m|]; [|apply consistent_empty].
  apply consistent_addBook, consistent_importVolumes, consistent_empty.
Qed.

(** X15: a delete keeps the mirror and the store in step as well, whether
    it is confirmed or not. *)
Theorem delete_keeps_consistent confirmed book w :
  consistent w -> consistent (App.handleDeleteBook confirmed book w).
Proof.
  intros Hw. destruct confirmed; [|done].
  destruct Hw as (Hkeyed & Hnd & Hbooks & Hvols & Hpages).
  unfold App.handleDeleteBook. cbn [negb]. unfold consistent.
  cbn [App.mirror App.db App.booksStore App.volumesStore App.pagesStore].
  split; [by apply keyed_deleteBookFromDB, keyed_deleteBookFromDB|].
  split.
  { clear -Hnd. induction (App.booksStore (App.mirror w)) as [|b bs IH]; [done|].
    cbn in Hnd |- *. apply List.NoDup_cons_iff in Hnd as [Hb Hnd].
    destruct (_ && _); [|by apply IH]. cbn. constructor; [|by apply IH].
    intros Hin. apply Hb. apply List.in_map_iff in Hin as (x & Hx & Hin).
    apply List.filter_In in Hin as [Hin _]. rewrite <- Hx. by apply List.in_map. }
  cbn [App.deleteBookFromDB App.books App.volumes App.pages].
  split; [|split].
  - intros b. rewrite List.filter_In, andb_true_iff, !bool_decide_eq_true.
    rewrite !lookup_delete_Some, <- Hbooks. intuition congruence.
  - intros v. rewrite List.filter_In, andb_true_iff, !bool_decide_eq_true.
    rewrite !map_lookup_filter_Some, <- Hvols. cbn [snd]. intuition congruence.
  - intros p. rewrite List.filter_In, andb_true_iff, !bool_decide_eq_true.
    rewrite !map_lookup_filter_Some, <- Hpages. cbn [snd]. intuition congruence.
Qed.

Lemma delete_keeps_consistent_witness :
  consistent Examples.imported
  /\ consistent (App.handleDeleteBook true Examples.book_b1 Examples.imported).
Proof.
  split; [exact consistent_imported|].
  exact (delete_keeps_consistent true Examples.book_b1 Examples.imported
           consistent_imported).
Defined.

(** ** What an import leaves alone and what it records *)

Lemma filter_inVolume_other b v b0 v0 (l : list Page.t) :
  b <> b0 \/ v <> v0 ->
  List.filter (App.inVolume b v)
    (List.filter (fun pg => negb (App.inVolume b0 v0 pg)) l)
  = List.filter (App.inVolume b v) l.
Proof.
  intros Hne. induction l as [|pg l IH]; simpl; [done|].
  destruct (App.inVolume b0 v0 pg) eqn:E0; simpl.
  - assert (App.inVolume b v pg = false) as ->; [|done].
    apply bool_decide_eq_true in E0 as [Eb Ev].
    apply bool_decide_eq_false. intros [Hb Hv]. destruct Hne; congruence.
  - destruct (App.inVolume b v pg); by rewrite IH.
Qed.

Lemma importVolume_other_pages a b0 vi now w b v :
  App.keyed (App.db w) ->
  b <> b0 \/ v <> App.volume vi ->
  sameVolumePages w (App.importVolume a b0 vi now w) b v.
Proof.
  intros (_ & _ & Hkp) Hne. split.
  - simpl. rewrite List.filter_app, filter_inVolume_other by done.
    rewrite (filter_none _ (App.readPages a b0 vi)), app_nil_r; [done|].
    intros pg Hpg. apply readPages_inVolume in Hpg.
    apply bool_decide_eq_true in Hpg as [Hb Hv].
    apply bool_decide_eq_false. intros [Hb' Hv']. destruct Hne; congruence.
  - intros k p Hp. apply bool_decide_eq_true in Hp as [Hb Hv]. simpl.
    rewrite put_pages_lookup by apply readPages_keys_NoDup.
    rewrite map_lookup_filter_Some. cbn [snd]. split.
    + intros [[Hin _] | [_ [Hold _]]]; [|done].
      apply list_elem_of_In, readPages_inVolume in Hin.
      apply bool_decide_eq_true in Hin as [Hb0 Hv0]. destruct Hne; congruence.
    + intros Hold. right. split.
      * intros Hk. apply list_elem_of_fmap in Hk as (new & Hk & Hnew).
        apply list_elem_of_In, readPages_inVolume in Hnew.
        apply bool_decide_eq_true in Hnew as [Hb0 Hv0].
        rewrite <- (Hkp _ _ Hold) in Hk. injection Hk as Hkb Hkv _.
        destruct Hne; congruence.
      * split; [done|]. intros [Hb0 Hv0]. destruct Hne; congruence.
Qed.

Lemma importVolumes_other_pages clock a b0 vols tick w b v :
  App.keyed (App.db w) ->
  b <> b0 \/ App.lastDeclared v vols = None ->
  sameVolumePages w (App.importVolumes App.importVolume clock a b0 vols tick w) b v.
Proof.
  revert tick w. induction vols as [|vi vols IH]; intros tick w Hk Hne; [done|].
  cbn [App.importVolumes].
  assert (b <> b0 \/ v <> App.volume vi) as Hstep.
  { destruct Hne as [Hne | Hne]; [by left|]. right. simpl in Hne.
    destruct (App.lastDeclared v vols); [done|]. by case_bool_decide. }
  assert (b <> b0 \/ App.lastDeclared v vols = None) as Hrest.
  { destruct Hne as [Hne | Hne]; [by left|]. right. simpl in Hne.
    by destruct (App.lastDeclared v vols). }
  destruct (importVolume_other_pages a b0 vi (clock tick) w b v Hk Hstep)
    as [Hm1 Hs1].
  destruct (IH (S tick) _ (keyed_importVolume a b0 vi (clock tick) w Hk) Hrest)
    as [Hm2 Hs2].
  split; [by rewrite Hm2, Hm1|].
  intros k p Hp. by rewrite (Hs2 k p Hp), (Hs1 k p Hp).
Qed.

(** X16: an import touches the pages of no volume it does not declare:
    for any other book, and for any volume number its manifest does not
    list, the pages in the mirror and in the store are afterwards what
    they were. *)
Theorem import_leaves_other_volumes clock a w m b v :
  App.keyed (App.db w) ->
  App.manifest a = Some m ->
  b <> App.id m \/ App.lastDeclared v (App.manifestVolumes m) = None ->
  sameVolumePages w (App.handleFileImport clock a w) b v.
Proof.
  intros Hk Hm Hne. unfold App.handleFileImport, App.importManifest. rewrite Hm.
  pose proof (importVolumes_other_pages clock a (App.id m) (App.manifestVolumes m)
                0 w b v Hk Hne) as Hloop.
  unfold sameVolumePages, App.addBook in *.
  by destruct (List.find _ _).
Qed.

Lemma import_leaves_other_volumes_witness :
  let m := App.mkManifest Examples.b1 (JS.lit "Book One") None [App.mkVolInfo 1 1] in
  App.keyed (App.db Examples.imported)
  /\ App.manifest Examples.onePage = Some m
  /\ (JS.lit "b2" <> App.id m \/ App.lastDeclared 7 (App.manifestVolumes m) = None)
  /\ sameVolumePages Examples.imported
       (App.handleFileImport Examples.clock Examples.onePage Examples.imported)
       (JS.lit "b2") 7.
Proof.
  cbv zeta.
  assert (App.keyed (App.db Examples.imported)) as Hk
    by apply consistent_imported.
  split; [exact Hk|]. split; [reflexivity|].
  split; [right; reflexivity|].
  exact (import_leaves_other_volumes Examples.clock Examples.onePage
           Examples.imported _ (JS.lit "b2") 7 Hk eq_refl (or_intror eq_refl)).
Defined.

Lemma importVolumes_books step clock a b vols tick w :
  (forall a b vi now w,
     App.booksStore (App.mirror (step a b vi now w)) = App.booksStore (App.mirror w)
     /\ App.books (App.db (step a b vi now w)) = App.books (App.db w)) ->
  App.booksStore (App.mirror (App.importVolumes step clock a b vols tick w))
  = App.booksStore (App.mirror w)
  /\ App.books (App.db (App.importVolumes step clock a b vols tick w))
     = App.books (App.db w).
Proof.
  intros Hstep. revert tick w.
  induction vols as [|vi vols IH]; intros tick w; [done|].
  cbn [App.importVolumes]. destruct (IH (S tick) (step a b vi (clock tick) w))
    as [-> ->]. apply Hstep.
Qed.

Lemma find_updateBook bookId f (bs : list Book.t) existing :
  (forall b, Book.id (f b) = Book.id b) ->
  List.find (fun b => bool_decide (Book.id b = bookId)) bs = Some existing ->
  List.find (fun b => bool_decide (Book.id b = bookId)) (App.updateBook bookId f bs)
  = Some (f existing).
Proof.
  intros Hf. induction bs as [|b bs IH]; [done|]. simpl.
  case_bool_decide as Hid.
  - intros [= <-]. simpl. by rewrite Hf, bool_decide_eq_true_2.
  - intros Hfind. simpl. rewrite bool_decide_eq_false_2 by done. by apply IH.
Qed.

Lemma find_app_none bookId (bs : list Book.t) b :
  List.find (fun b => bool_decide (Book.id b = bookId)) bs = None ->
  Book.id b = bookId ->
  List.find (fun b => bool_decide (Book.id b = bookId)) (bs ++ [b]) = Some b.
Proof.
  intros Hnone Hid. induction bs as [|x bs IH]; simpl in *.
  - by rewrite bool_decide_eq_true_2.
  - destruct (bool_decide (Book.id x = bookId)); [done | by apply IH].
Qed.

(** X17: after an import the book of the manifest is in the mirror and,
    the same record, in the store.  A book that was there keeps its title
    and gets the larger of its volume count and the highest volume number
    of the manifest; a new book takes the title of the manifest and that
    highest number, which is [-Infinity] for a manifest without volumes. *)
Theorem import_records_book clock a w m :
  App.manifest a = Some m ->
  let w' := App.handleFileImport clock a w in
  let isBook := fun b => bool_decide (Book.id b = App.id m) in
  let old := List.find isBook (App.booksStore (App.mirror w)) in
  let highest := JS.Math_max (List.map App.volume (App.manifestVolumes m)) in
  exists b',
    List.find isBook (App.booksStore (App.mirror w')) = Some b'
    /\ App.books (App.db w') !! App.id m = Some b'
    /\ Book.id b' = App.id m
    /\ Book.title b' = match old with Some e => Book.title e | None => App.title m end
    /\ Book.volumes b'
       = match old with
         | Some e => JS.max2 (Book.volumes e) highest
         | None => highest
         end.
Proof.
  intros Hm. cbv zeta. unfold App.handleFileImport, App.importManifest.
  rewrite Hm. unfold App.addBook.
  destruct (importVolumes_books App.importVolume clock a (App.id m)
              (App.manifestVolumes m) 0 w) as [Hbs Hdb]; [by intros|].
  rewrite Hbs.
  destruct (List.find _ (App.booksStore (App.mirror w))) as [e|] eqn:Hfind;
    cbn [App.mirror App.db App.booksStore App.saveBookToDB App.books Book.id].
  - destruct (find_some_id _ _ _ Hfind) as [_ Hid].
    eexists. split; [by apply find_updateBook|].
    rewrite Hid, lookup_insert_eq. done.
  - eexists. split; [by apply find_app_none|].
    rewrite lookup_insert_eq. done.
Qed.

Lemma import_records_book_witness :
  let m := App.mkManifest Examples.b1 (JS.lit "Book One") None [App.mkVolInfo 1 2] in
  App.manifest Examples.twoPages = Some m
  /\ exists b',
       App.books (App.db (App.handleFileImport Examples.clock Examples.twoPages
                            Examples.emptyWorld)) !! Examples.b1 = Some b'
       /\ Book.volumes b' = JS.Num 1.
Proof.
  cbv zeta. split; [reflexivity|].
  destruct (import_records_book Examples.clock Examples.twoPages
              Examples.emptyWorld _ eq_refl) as (b' & _ & Hdb & _ & _ & Hvol).
  exists b'. split; [exact Hdb | exact Hvol].
Defined.

Lemma importVolume_records a b vi now w :
  volumeRecorded (App.importVolume a b vi now w) b (App.volume vi)
    (VolumeInfo.mk b (App.volume vi) (App.totalPages vi) (Some now)).
Proof.
  split; simpl.
  - rewrite List.filter_app.
    rewrite (filter_none (App.isVolume b (App.volume vi))).
    + simpl. unfold App.isVolume. by rewrite bool_decide_eq_true_2.
    + intros v Hv. apply List.filter_In in Hv as [_ Hv]. by apply negb_true_iff.
  - apply lookup_insert_eq.
Qed.

Lemma importVolume_keeps_record a b vi now w v rec :
  App.volume vi <> v ->
  volumeRecorded w b v rec ->
  volumeRecorded (App.importVolume a b vi now w) b v rec.
Proof.
  intros Hne [Hmirror Hstore]. split; simpl.
  - rewrite List.filter_app. simpl.
    assert (App.isVolume b v (VolumeInfo.mk b (App.volume vi) (App.totalPages vi)
                                (Some now)) = false) as ->.
    { apply bool_decide_eq_false. simpl. by intros [_ ?]. }
    rewrite app_nil_r, <- Hmirror. clear Hmirror.
    induction (App.volumesStore (App.mirror w)) as [|x l IH]; [done|]. simpl.
    destruct (App.isVolume b (App.volume vi) x) eqn:E; simpl.
    + assert (App.isVolume b v x = false) as ->; [|done].
      apply bool_decide_eq_true in E as [_ E].
      apply bool_decide_eq_false. intros [_ ?]. congruence.
    + destruct (App.isVolume b v x); by rewrite IH.
  - rewrite lookup_insert_ne; [done|]. unfold App.volumeKey. simpl. congruence.
Qed.

Lemma importVolumes_records clock a b vols tick w v vi :
  App.lastDeclared v vols = Some vi ->
  exists now,
    volumeRecorded (App.importVolumes App.importVolume clock a b vols tick w) b v
      (VolumeInfo.mk b v (App.totalPages vi) (Some now)).
Proof.
  revert tick w. induction vols as [|x vols IH]; intros tick w Hlast; [done|].
  simpl in *. destruct (App.lastDeclared v vols) as [later|] eqn:E.
  - injection Hlast as ->. by apply IH.
  - case_bool_decide as Hx; [|done]. injection Hlast as ->.
    exists (clock tick). rewrite <- Hx. clear IH.
    assert (forall vols tick w rec,
              App.lastDeclared (App.volume vi) vols = None ->
              volumeRecorded w b (App.volume vi) rec ->
              volumeRecorded (App.importVolumes App.importVolume clock a b vols tick w)
                b (App.volume vi) rec) as Hkeep.
    { clear. induction vols as [|y vols IH]; intros tick w rec Hnone Hw; [done|].
      simpl in *. destruct (App.lastDeclared (App.volume vi) vols); [done|].
      case_bool_decide; [done|].
      apply IH; [done|]. by apply importVolume_keeps_record. }
    apply Hkeep; [by rewrite Hx | apply importVolume_records].
Qed.

(** X18: after an import the mirror has exactly one volume record for a
    volume the manifest declares, the store has the same record under the
    key of the volume, and its page count is the one the manifest gives
    (in its last entry for the volume). *)
Theorem import_records_volume clock a w m v vi :
  App.manifest a = Some m ->
  App.lastDeclared v (App.manifestVolumes m) = Some vi ->
  exists now,
    volumeRecorded (App.handleFileImport clock a w) (App.id m) v
      (VolumeInfo.mk (App.id m) v (App.totalPages vi) (Some now)).
Proof.
  intros Hm Hlast. unfold App.handleFileImport, App.importManifest. rewrite Hm.
  destruct (importVolumes_records clock a (App.id m) (App.manifestVolumes m) 0 w
              v vi Hlast) as (now & Hrec).
  exists now. unfold volumeRecorded, App.addBook in *.
  by destruct (List.find _ _).
Qed.

Lemma import_records_volume_witness :
  let m := App.mkManifest Examples.b1 (JS.lit "Book One") None [App.mkVolInfo 1 1] in
  App.manifest Examples.onePage = Some m
  /\ App.lastDeclared 1 (App.manifestVolumes m) = Some (App.mkVolInfo 1 1)
  /\ exists now,
       volumeRecorded
         (App.handleFileImport Examples.clock Examples.onePage Examples.imported)
         Examples.b1 1 (VolumeInfo.mk Examples.b1 1 1 (Some now)).
Proof.
  cbv zeta. split; [reflexivity|]. split; [reflexivity|].
  exact (import_records_volume Examples.clock Examples.onePage Examples.imported
           _ 1 (App.mkVolInfo 1 1) eq_refl eq_refl).
Defined.

(** ** What a delete leaves alone *)

Lemma filter_filter_same {A} (f : A -> bool) (l : list A) :
  List.filter f (List.filter f l) = List.filter f l.
Proof.
  induction l as [|x l IH]; [done|]. simpl.
  destruct (f x) eqn:E; simpl; [by rewrite E, IH | done].
Qed.

Lemma deleteBookFromDB_twice i j d :
  App.deleteBookFromDB j (App.deleteBookFromDB i
    (App.deleteBookFromDB j (App.deleteBookFromDB i d)))
  = App.deleteBookFromDB j (App.deleteBookFromDB i d).
Proof.
  unfold App.deleteBookFromDB. cbn [App.books App.volumes App.pages]. f_equal.
  - apply map_eq. intros k. apply option_eq. intros b.
    rewrite !lookup_delete_Some. tauto.
  - apply map_eq. intros k. apply option_eq. intros v.
    rewrite !map_lookup_filter_Some. tauto.
  - apply map_eq. intros k. apply option_eq. intros p.
    rewrite !map_lookup_filter_Some. tauto.
Qed.

(** X19: deleting a book twice is deleting it once: a second
    [handleDeleteBook] for the same book changes neither the mirror nor
    the store. *)
Theorem handleDeleteBook_idempotent (book : Book.t) (w : App.World) :
  App.handleDeleteBook true book (App.handleDeleteBook true book w)
  = App.handleDeleteBook true book w.
Proof.
  unfold App.handleDeleteBook. cbn [negb App.mirror App.db App.booksStore
    App.volumesStore App.pagesStore].
  by rewrite !filter_filter_same, deleteBookFromDB_twice.
Qed.

(** X20: a delete removes nothing else: a book, volume or page whose book
    id is neither the id of the deleted book nor that id with [_en] is in
    the mirror and in the store afterwards exactly if it was there
    before. *)
Theorem handleDeleteBook_leaves_others (book : Book.t) (w : App.World) :
  App.keyed (App.db w) ->
  let w' := App.handleDeleteBook true book w in
  (forall b, otherBook book (Book.id b) ->
     (In b (App.booksStore (App.mirror w')) <-> In b (App.booksStore (App.mirror w)))
     /\ forall k, App.books (App.db w') !! k = Some b
                  <-> App.books (App.db w) !! k = Some b)
  /\ (forall v, otherBook book (VolumeInfo.bookId v) ->
        (In v (App.volumesStore (App.mirror w'))
         <-> In v (App.volumesStore (App.mirror w)))
        /\ forall k, App.volumes (App.db w') !! k = Some v
                     <-> App.volumes (App.db w) !! k = Some v)
  /\ (forall p, otherBook book (Page.bookId p) ->
        (In p (App.pagesStore (App.mirror w')) <-> In p (App.pagesStore (App.mirror w)))
        /\ forall k, App.pages (App.db w') !! k = Some p
                     <-> App.pages (App.db w) !! k = Some p).
Proof.
  intros (Hkb & _ & _). cbv zeta. unfold App.handleDeleteBook, otherBook.
  cbn [negb App.mirror App.db App.booksStore App.volumesStore App.pagesStore
       App.deleteBookFromDB App.books App.volumes App.pages].
  split; [|split].
  - intros b [H1 H2]. split.
    + rewrite List.filter_In, andb_true_iff, !bool_decide_eq_true. tauto.
    + intros k. rewrite !lookup_delete_Some. split; [tauto|].
      intros Hk. pose proof (Hkb _ _ Hk) as Hid. subst k.
      repeat split; [congruence | congruence | done].
  - intros v [H1 H2]. split.
    + rewrite List.filter_In, andb_true_iff, !bool_decide_eq_true. tauto.
    + intros k. rewrite !map_lookup_filter_Some. cbn [snd]. tauto.
  - intros p [H1 H2]. split.
    + rewrite List.filter_In, andb_true_iff, !bool_decide_eq_true. tauto.
    + intros k. rewrite !map_lookup_filter_Some. cbn [snd]. tauto.
Qed.

Lemma handleDeleteBook_leaves_others_witness :
  let other := Book.mk (JS.lit "b2") (JS.lit "Book Two") None (JS.Num 1) None in
  App.keyed (App.db Examples.imported)
  /\ forall p, otherBook other (Page.bookId p) ->
       (In p (App.pagesStore (App.mirror
                (App.handleDeleteBook true other Examples.imported)))
        <-> In p (App.pagesStore (App.mirror Examples.imported))).
Proof.
  cbv zeta.
  assert (App.keyed (App.db Examples.imported)) as Hk by apply consistent_imported.
  split; [exact Hk|]. intros p Hp.
  exact (proj1 (proj2 (proj2 (handleDeleteBook_leaves_others _ Examples.imported Hk))
                  p Hp)).
Defined.

(** ** Reading the pages of a volume *)

Lemma read_pages_sorted (b : jsstring) (v : Z) (file : Z -> option jsstring)
    (n : nat) :
  StronglySorted Z.lt
    (Page.page <$> omap (fun i => Page.mk b v i <$> file i) (seqZ 1 (Z.of_nat n)))
  /\ Forall (fun i => i < 1 + Z.of_nat n)
       (Page.page <$> omap (fun i => Page.mk b v i <$> file i) (seqZ 1 (Z.of_nat n))).
Proof.
  induction n as [|n [IHs IHb]]; [split; constructor|].
  rewrite seqZ_S, omap_app, fmap_app. split.
  - apply StronglySorted_app. split; [|split; [done|]].
    + intros i j Hi Hj. rewrite Forall_forall in IHb. specialize (IHb i Hi).
      simpl in Hj. destruct (file (1 + Z.of_nat n)); simpl in Hj.
      * apply list_elem_of_singleton in Hj. subst j. exact IHb.
      * by apply elem_of_nil in Hj.
    + simpl. destruct (file (1 + Z.of_nat n)); simpl; repeat constructor.
  - apply Forall_app. split.
    + eapply Forall_impl; [exact IHb|]. intros i Hi. simpl in Hi. lia.
    + simpl. destruct (file (1 + Z.of_nat n)); simpl; repeat constructor. lia.
Qed.

Lemma omap_length_le {A B} (f : A -> option B) (l : list A) :
  (length (omap f l) <= length l)%nat.
Proof.
  induction l as [|x l IH]; [done|].
  change (omap f (x :: l))
    with (match f x with Some y => y :: omap f l | None => omap f l end).
  destruct (f x); cbn [length]; lia.
Qed.

(** X21: the pages read for a volume are exactly the pages 1 to
    [totalPages] whose files are in the archive, each with the text of its
    file, in ascending page order; a missing file is skipped, and a page
    count below 1 reads nothing. *)
Theorem readPages_exact (a : App.Archive) (b : jsstring) (vi : App.VolInfo) :
  (forall pg, In pg (App.readPages a b vi) <->
     exists i text,
       1 <= i <= App.totalPages vi
       /\ App.pageFile a (App.volume vi) i = Some text
       /\ pg = Page.mk b (App.volume vi) i text)
  /\ StronglySorted Z.lt (List.map Page.page (App.readPages a b vi))
  /\ (length (App.readPages a b vi) <= Z.to_nat (App.totalPages vi))%nat
  /\ (App.totalPages vi < 1 -> App.readPages a b vi = []).
Proof.
  split; [intros pg; apply readPages_In|]. split; [|split].
  - unfold App.readPages.
    assert (seqZ 1 (App.totalPages vi)
            = seqZ 1 (Z.of_nat (Z.to_nat (App.totalPages vi)))) as ->.
    { unfold seqZ. by rewrite Nat2Z.id. }
    apply read_pages_sorted.
  - unfold App.readPages.
    etrans; [apply omap_length_le|]. by rewrite length_seqZ.
  - intros Hlow. unfold App.readPages, seqZ.
    by replace (Z.to_nat (App.totalPages vi)) with 0%nat by lia.
Qed.

(** ** The search cache as a bounded map *)

Section CacheMapFacts.
Context {T : Type}.
Implicit Types (c : Performance.Cache T) (v : Performance.CachedSearch T).

Lemma mapGet_mapSet_same key v c :
  Performance.mapGet key (Performance.mapSet key v c) = Some v.
Proof.
  induction c as [|[k v'] c IH]; simpl.
  - by rewrite bool_decide_eq_true_2.
  - destruct (bool_decide (k = key)) eqn:E; simpl.
    + by rewrite bool_decide_eq_true_2.
    + by rewrite E.
Qed.

Lemma mapGet_mapSet_other k key v c :
  k <> key ->
  Performance.mapGet k (Performance.mapSet key v c) = Performance.mapGet k c.
Proof.
  intros Hne. induction c as [|[k' v'] c IH]; simpl.
  - by rewrite bool_decide_eq_false_2 by congruence.
  - destruct (bool_decide (k' = key)) eqn:E; simpl.
    + apply bool_decide_eq_true in E as ->.
      by rewrite !bool_decide_eq_false_2 by congruence.
    + by rewrite IH.
Qed.

Lemma mapGet_mapDelete_other k key c :
  k <> key ->
  Performance.mapGet k (Performance.mapDelete key c) = Performance.mapGet k c.
Proof.
  intros Hne. induction c as [|[k' v'] c IH]; simpl; [done|].
  destruct (bool_decide (k' = key)) eqn:E; simpl.
  - apply bool_decide_eq_true in E as ->.
    by rewrite bool_decide_eq_false_2 by congruence.
  - by rewrite IH.
Qed.

Lemma mapDelete_keys_In k key c :
  In k (cacheKeys (Performance.mapDelete key c)) -> In k (cacheKeys c).
Proof.
  induction c as [|[k' v'] c IH]; simpl; [done|].
  destruct (bool_decide (k' = key)); simpl; tauto.
Qed.

Lemma mapDelete_NoDup key c :
  List.NoDup (cacheKeys c) -> List.NoDup (cacheKeys (Performance.mapDelete key c)).
Proof.
  induction c as [|[k' v'] c IH]; simpl; [done|]. intros Hnd.
  apply List.NoDup_cons_iff in Hnd as [Hk Hnd].
  destruct (bool_decide (k' = key)); simpl; [done|].
  apply List.NoDup_cons; [|by apply IH].
  intros Hin. apply Hk. by apply (mapDelete_keys_In _ key).
Qed.

Lemma mapGet_mapDelete_same key c :
  List.NoDup (cacheKeys c) ->
  Performance.mapGet key (Performance.mapDelete key c) = None.
Proof.
  induction c as [|[k' v'] c IH]; simpl; [done|]. intros Hnd.
  apply List.NoDup_cons_iff in Hnd as [Hk Hnd].
  destruct (bool_decide (k' = key)) eqn:E; simpl.
  - apply bool_decide_eq_true in E as ->. by apply mapGet_absent.
  - rewrite E. by apply IH.
Qed.

Lemma mapDelete_length key c :
  (length (Performance.mapDelete key c) <= length c)%nat.
Proof.
  induction c as [|[k' v'] c IH]; simpl; [done|].
  destruct (bool_decide (k' = key)); simpl; lia.
Qed.

Lemma mapSet_keys_In k key v c :
  In k (cacheKeys (Performance.mapSet key v c)) <-> In k (cacheKeys c) \/ k = key.
Proof.
  induction c as [|[k' v'] c IH]; simpl.
  - intuition congruence.
  - destruct (bool_decide (k' = key)) eqn:E; simpl.
    + apply bool_decide_eq_true in E as ->. intuition congruence.
    + rewrite IH. tauto.
Qed.

Lemma mapSet_NoDup key v c :
  List.NoDup (cacheKeys c) -> List.NoDup (cacheKeys (Performance.mapSet key v c)).
Proof.
  induction c as [|[k' v'] c IH]; simpl.
  - intros _. repeat constructor. by intros [].
  - intros Hnd. apply List.NoDup_cons_iff in Hnd as [Hk Hnd].
    destruct (bool_decide (k' = key)) eqn:E; simpl.
    + apply bool_decide_eq_true in E as ->. by apply List.NoDup_cons.
    + apply bool_decide_eq_false in E.
      apply List.NoDup_cons; [|by apply IH].
      rewrite mapSet_keys_In. intros [Hin | ->]; [by apply Hk | done].
Qed.

Lemma mapSet_length key v c :
  (length (Performance.mapSet key v c) <= S (length c))%nat.
Proof.
  induction c as [|[k' v'] c IH]; simpl; [done|].
  destruct (bool_decide (k' = key)); simpl; lia.
Qed.

(** X22: the cache stays a bounded map: if it holds no key twice, no empty
    key and at most [CACHE_SIZE] entries, then so it does after a look-up,
    and after caching results under a key that is not empty. *)
Theorem cache_stays_bounded (key : jsstring) (rs : list T) (now : Z)
    (c : Performance.Cache T) :
  boundedCache c ->
  boundedCache (Performance.getCachedSearchResults key now c).2
  /\ (key <> [] -> boundedCache (Performance.cacheSearchResults key rs now c)).
Proof.
  intros (Hnd & Hne & Hlen). split.
  - unfold Performance.getCachedSearchResults.
    destruct (Performance.mapGet key c) as [cached|]; [|done].
    destruct (_ <? _); [done|]. cbn [snd]. split; [|split].
    + by apply mapDelete_NoDup.
    + rewrite List.Forall_forall in *. intros k Hk. apply Hne.
      by apply (mapDelete_keys_In _ key).
    + pose proof (mapDelete_length key c). lia.
  - intros Hkey. unfold Performance.cacheSearchResults.
    set (c0 := if (Performance.CACHE_SIZE <=? length c)%nat then _ else c).
    assert (List.NoDup (cacheKeys c0)
            /\ Forall (fun k => k <> []) (cacheKeys c0)
            /\ (S (length c0) <= Performance.CACHE_SIZE)%nat) as (Hnd0 & Hne0 & Hlen0).
    { subst c0. destruct (Performance.CACHE_SIZE <=? length c)%nat eqn:Hfull.
      - apply Nat.leb_le in Hfull.
        destruct c as [|[oldestKey v] rest];
          [unfold Performance.CACHE_SIZE in Hfull; simpl in Hfull; lia|].
        cbn [cacheKeys List.map fst] in Hnd, Hne.
        apply List.NoDup_cons_iff in Hnd as [_ Hnd].
        apply List.Forall_cons_iff in Hne as [Hold Hne].
        destruct oldestKey as [|x oldestKey]; [done|]. cbn [JS.truthy].
        cbn [Performance.mapDelete]. rewrite bool_decide_eq_true_2 by done.
        simpl in Hlen. repeat split; [done | done | lia].
      - apply Nat.leb_gt in Hfull. repeat split; [done | done | lia]. }
    split; [|split].
    + by apply mapSet_NoDup.
    + rewrite List.Forall_forall in *. intros k Hk.
      apply mapSet_keys_In in Hk as [Hk | ->]; [by apply Hne0 | done].
    + pose proof (mapSet_length key (Performance.mkCached rs now) c0). lia.
Qed.

(** X23: what is cached is found again: a look-up of the key within the
    time to live of the entry gives back the cached results and leaves the
    cache as it is. *)
Theorem cache_round_trip (key : jsstring) (rs : list T) (cachedAt now : Z)
    (c : Performance.Cache T) :
  now - cachedAt < Performance.CACHE_TTL ->
  let c' := Performance.cacheSearchResults key rs cachedAt c in
  Performance.getCachedSearchResults key now c' = (Some rs, c').
Proof.
  intros Hfresh c'. subst c'.
  unfold Performance.getCachedSearchResults, Performance.cacheSearchResults.
  rewrite mapGet_mapSet_same. cbn [Performance.timestamp Performance.results].
  by apply Z.ltb_lt in Hfresh as ->.
Qed.

(** X24: a stale entry is dropped by the look-up that finds it: the
    look-up answers with nothing, the key is gone from the cache
    afterwards, and every other key is looked up as before. *)
Theorem stale_entry_is_removed (key : jsstring) (now : Z)
    (c : Performance.Cache T) (cached : Performance.CachedSearch T) :
  List.NoDup (cacheKeys c) ->
  Performance.mapGet key c = Some cached ->
  Performance.CACHE_TTL <= now - Performance.timestamp cached ->
  let r := Performance.getCachedSearchResults key now c in
  r.1 = None
  /\ Performance.mapGet key r.2 = None
  /\ forall k, k <> key -> Performance.mapGet k r.2 = Performance.mapGet k c.
Proof.
  intros Hnd Hget Hold r. subst r. rewrite (getCached_stale _ _ _ _ Hget Hold).
  cbn [fst snd]. split; [done|]. split.
  - by apply mapGet_mapDelete_same.
  - intros k Hk. by apply mapGet_mapDelete_other.
Qed.

(** X25: caching results under one key disturbs no other entry but the
    oldest: every other key is looked up as before, unless the cache was
    full and the key is the oldest one; below [CACHE_SIZE] entries nothing
    is lost at all. *)
Theorem cacheSearchResults_frame (key k : jsstring) (rs : list T) (now : Z)
    (c : Performance.Cache T) :
  k <> key ->
  ((length c < Performance.CACHE_SIZE)%nat \/ head (cacheKeys c) <> Some k) ->
  Performance.mapGet k (Performance.cacheSearchResults key rs now c)
  = Performance.mapGet k c.
Proof.
  intros Hne Hkeep. unfold Performance.cacheSearchResults.
  rewrite mapGet_mapSet_other by done.
  destruct (Performance.CACHE_SIZE <=? length c)%nat eqn:Hfull; [|done].
  apply Nat.leb_le in Hfull. destruct Hkeep as [Hlt | Hhead]; [lia|].
  destruct c as [|[oldestKey v] rest]; [done|].
  destruct (JS.truthy oldestKey); [|done].
  apply mapGet_mapDelete_other. intros ->. by apply Hhead.
Qed.

End CacheMapFacts.

Lemma cache_stays_bounded_witness :
  let c := Performance.cacheAll Examples.manySearches [] in
  boundedCache c
  /\ boundedCache (Performance.cacheSearchResults (JS.lit "exact:all:all:q")
                     ([] : list SearchResult.t) 7 c).
Proof.
  cbv zeta.
  assert (boundedCache (Performance.cacheAll Examples.manySearches [])) as Hb.
  { split; [|split].
    - apply NoDup_ListNoDup.
      apply (bool_decide_unpack
               (NoDup (cacheKeys (Performance.cacheAll Examples.manySearches [])))).
      vm_compute. reflexivity.
    - apply (bool_decide_unpack
               (Forall (fun k => k <> [])
                  (cacheKeys (Performance.cacheAll Examples.manySearches [])))).
      vm_compute. reflexivity.
    - vm_compute. lia. }
  split; [exact Hb|].
  apply (proj2 (cache_stays_bounded (JS.lit "exact:all:all:q") [] 7 _ Hb)).
  vm_compute. discriminate.
Defined.

Lemma cache_round_trip_witness :
  7 + 1000 - 7 < Performance.CACHE_TTL
  /\ Performance.getCachedSearchResults (JS.lit "exact:all:all:q") (7 + 1000)
       (Performance.cacheSearchResults (JS.lit "exact:all:all:q")
          ([] : list SearchResult.t) 7 [])
     = (Some [], Performance.cacheSearchResults (JS.lit "exact:all:all:q")
                   ([] : list SearchResult.t) 7 []).
Proof.
  assert (7 + 1000 - 7 < Performance.CACHE_TTL) as H by (vm_compute; reflexivity).
  split; [exact H|].
  exact (cache_round_trip (JS.lit "exact:all:all:q") [] 7 (7 + 1000) [] H).
Defined.

Lemma stale_entry_is_removed_witness :
  let key := JS.lit "exact:all:all:q" in
  let c : Performance.Cache SearchResult.t :=
    Performance.cacheSearchResults key [] 7 [] in
  (Performance.getCachedSearchResults key (7 + Performance.CACHE_TTL) c).1 = None
  /\ Performance.mapGet key
       (Performance.getCachedSearchResults key (7 + Performance.CACHE_TTL) c).2
     = None.
Proof.
  cbv zeta.
  set (key := JS.lit "exact:all:all:q").
  set (c := Performance.cacheSearchResults key ([] : list SearchResult.t) 7 []).
  assert (List.NoDup (cacheKeys c)) as Hnd.
  { apply NoDup_ListNoDup. apply (bool_decide_unpack (NoDup (cacheKeys c))).
    vm_compute. reflexivity. }
  assert (Performance.mapGet key c = Some (Performance.mkCached [] 7)) as Hget.
  { vm_compute. reflexivity. }
  assert (Performance.CACHE_TTL
          <= 7 + Performance.CACHE_TTL
             - Performance.timestamp (Performance.mkCached ([] : list SearchResult.t) 7))
    as Hold by (cbn [Performance.timestamp]; lia).
  pose proof (stale_entry_is_removed key (7 + Performance.CACHE_TTL) c _ Hnd Hget Hold)
    as (H1 & H2 & _).
  split; [exact H1 | exact H2].
Defined.

Lemma cacheSearchResults_frame_witness :
  let c := Performance.cacheAll Examples.manySearches [] in
  Performance.mapGet (JS.lit "root:all:all:ااا")
    (Performance.cacheSearchResults (JS.lit "exact:all:all:q")
       ([] : list SearchResult.t) 7 c)
  = Performance.mapGet (JS.lit "root:all:all:ااا") c.
Proof.
  cbv zeta.
  apply cacheSearchResults_frame.
  - vm_compute. discriminate.
  - right. vm_compute. discriminate.
Defined.

(** ** The cache key and the order of the selected books *)

Lemma ltString_nil_r a : Performance.ltString a [] = false.
Proof. by destruct a. Qed.

Lemma leString_refl a : leString a a.
Proof.
  unfold leString. induction a as [|x a IH]; [done|]. simpl.
  by rewrite N.ltb_irrefl, N.eqb_refl, IH.
Qed.

Lemma leString_antisym a b : leString a b -> leString b a -> a = b.
Proof.
  unfold leString. revert b. induction a as [|x a IH]; intros [|y b]; simpl;
    try done.
  intros H1 H2. apply orb_false_iff in H1 as [H1 H1'], H2 as [H2 H2'].
  apply N.ltb_ge in H1, H2. assert (x = y) as -> by lia.
  rewrite N.eqb_refl in H1', H2'. simpl in H1', H2'. f_equal. by apply IH.
Qed.

Lemma leString_trans a b c : leString a b -> leString b c -> leString a c.
Proof.
  unfold leString. revert b c. induction a as [|x a IH]; intros b c.
  - intros _ _. apply ltString_nil_r.
  - destruct b as [|y b]; [done|]. destruct c as [|z c]; [done|]. simpl.
    intros H1 H2. apply orb_false_iff in H1 as [H1 H1'], H2 as [H2 H2'].
    apply N.ltb_ge in H1, H2. apply orb_false_iff. split; [apply N.ltb_ge; lia|].
    destruct (N.eqb_spec z x) as [->|Hzx]; [|done]. assert (y = x) as -> by lia.
    rewrite N.eqb_refl in H1', H2'. simpl in *. by apply (IH b c).
Qed.

Lemma ltString_leString a b : Performance.ltString a b = true -> leString a b.
Proof.
  unfold leString. revert b. induction a as [|x a IH]; intros [|y b]; simpl;
    try done.
  intros H. apply orb_true_iff in H as [H | H].
  - apply N.ltb_lt in H. apply orb_false_iff. split; [apply N.ltb_ge; lia|].
    destruct (N.eqb_spec y x); [lia | done].
  - apply andb_true_iff in H as [Hxy H]. apply N.eqb_eq in Hxy as ->.
    by rewrite N.ltb_irrefl, N.eqb_refl, (IH b H).
Qed.

#[local] Instance leString_transitive : Transitive leString.
Proof. intros a b c. apply leString_trans. Qed.

#[local] Instance leString_antisymmetric : AntiSymm (=) leString.
Proof. intros a b. apply leString_antisym. Qed.

Lemma insertSorted_perm x l : Performance.insertSorted x l ≡ₚ x :: l.
Proof.
  induction l as [|y l IH]; simpl; [done|].
  destruct (Performance.ltString x y); [done|].
  rewrite IH. apply perm_swap.
Qed.

Lemma insertSorted_sorted x l :
  StronglySorted leString l -> StronglySorted leString (Performance.insertSorted x l).
Proof.
  induction l as [|y l IH]; simpl; intros Hs; [repeat constructor|].
  apply StronglySorted_cons in Hs as [Hy Hs].
  destruct (Performance.ltString x y) eqn:E.
  - apply ltString_leString in E. apply StronglySorted_cons. split.
    + constructor; [done|]. eapply Forall_impl; [exact Hy|].
      intros z Hz. by trans y.
    + by apply StronglySorted_cons.
  - apply StronglySorted_cons. split; [|by apply IH].
    rewrite (insertSorted_perm x l). by constructor.
Qed.

Lemma sortStrings_from (acc l : list jsstring) :
  StronglySorted leString acc ->
  let r := foldl (fun sorted x => Performance.insertSorted x sorted) acc l in
  StronglySorted leString r /\ r ≡ₚ acc ++ l.
Proof.
  cbv zeta. revert acc. induction l as [|x l IH]; intros acc Hacc; cbn [foldl].
  - by rewrite app_nil_r.
  - destruct (IH (Performance.insertSorted x acc)) as [Hs Hp];
      [by apply insertSorted_sorted|].
    split; [done|]. rewrite Hp, insertSorted_perm.
    by rewrite <- Permutation_middle.
Qed.

Lemma sortStrings_perm l l' :
  l ≡ₚ l' -> Performance.sortStrings l = Performance.sortStrings l'.
Proof.
  intros Hp. unfold Performance.sortStrings.
  destruct (sortStrings_from [] l) as [Hs1 Hp1]; [constructor|].
  destruct (sortStrings_from [] l') as [Hs2 Hp2]; [constructor|].
  apply (StronglySorted_unique leString); [done | done |].
  by rewrite Hp1, Hp2.
Qed.

(** X26: the cache key does not depend on the order in which the books
    were selected: two selections with the same books, listed in any
    order, give the same key. *)
Theorem getSearchCacheKey_order_independent (query : jsstring) (mode : SearchMode)
    (sectFilter : jsstring) (selectedBooks selectedBooks' : list jsstring) :
  selectedBooks ≡ₚ selectedBooks' ->
  Performance.getSearchCacheKey query mode sectFilter selectedBooks
  = Performance.getSearchCacheKey query mode sectFilter selectedBooks'.
Proof.
  intros Hp. unfold Performance.getSearchCacheKey.
  by rewrite (sortStrings_perm _ _ Hp), (Permutation_length Hp).
Qed.

Lemma getSearchCacheKey_order_independent_witness :
  [JS.lit "kafi"; JS.lit "bukhari"] ≡ₚ [JS.lit "bukhari"; JS.lit "kafi"]
  /\ Performance.getSearchCacheKey (JS.lit "q") exact (JS.lit "all")
       [JS.lit "kafi"; JS.lit "bukhari"]
     = Performance.getSearchCacheKey (JS.lit "q") exact (JS.lit "all")
         [JS.lit "bukhari"; JS.lit "kafi"].
Proof.
  assert ([JS.lit "kafi"; JS.lit "bukhari"] ≡ₚ [JS.lit "bukhari"; JS.lit "kafi"])
    as Hp by apply perm_swap.
  split; [exact Hp|].
  exact (getSearchCacheKey_order_independent _ _ _ _ _ Hp).
Defined.

(** ** The scan of the search worker *)

Section WorkerFacts.
Context `{JSONRuntime}.

Lemma worker_searchPage_In normalizedQuery mode bookMap page r :
  In r (SearchWorker.searchPage normalizedQuery mode bookMap page) <->
  exists textParts,
    JSON_parse (Page.text page) = Some textParts
    /\ JS.indexOf (asSearched mode (fullTextOf textParts)) normalizedQuery 0 <> -1
    /\ r = SearchResult.mk (Page.bookId page)
             (JS.orElseUndefined
                (JS.Map_get bookMap
                   (JS.replaceFirst (Page.bookId page) (JS.lit "_en") []))
                (JS.lit "Unknown"))
             (Page.volume page) (Page.page page)
             (SearchWorker.extractSnippet (fullTextOf textParts)
                (JS.indexOf (asSearched mode (fullTextOf textParts)) normalizedQuery 0)
                150)
             (JS.indexOf (asSearched mode (fullTextOf textParts)) normalizedQuery 0).
Proof.
  unfold SearchWorker.searchPage.
  destruct (JSON_parse (Page.text page)) as [textParts|].
  - fold (fullTextOf textParts). fold (asSearched mode (fullTextOf textParts)).
    destruct (Z.eqb_spec
                (JS.indexOf (asSearched mode (fullTextOf textParts)) normalizedQuery 0)
                (-1)) as [E|E]; cbn [negb].
    + split; [done|]. intros (tp & [= <-] & Hne & _). done.
    + split.
      * intros [<- | []]. by exists textParts.
      * intros (tp & [= <-] & _ & ->). by left.
  - split; [done|]. by intros (tp & Hp & _).
Qed.




Lemma substring_contains (s pre pat post : jsstring) (a b : Z) :
  s = pre ++ pat ++ post ->
  0 <= a <= JS.len pre -> JS.len pre + JS.len pat <= b <= JS.len s ->
  JS.contains (JS.substring s a b) pat.
Proof.
  intros -> Ha Hb. unfold JS.substring, JS.len in *.
  rewrite !length_app in *.
  replace (Z.min (Z.max a 0) _) with a by lia.
  replace (Z.min (Z.max b 0) _) with b by lia.
  replace (Z.min a b) with a by lia. replace (Z.max a b) with b by lia.
  rewrite drop_app_le by lia. rewrite app_assoc.
  rewrite take_app_ge by (rewrite length_app, length_drop; lia).
  exists (drop (Z.to_nat a) pre), (take (Z.to_nat (b - a)
                                   - length (drop (Z.to_nat a) pre ++ pat)) post).
  by rewrite <- app_assoc.
Qed.

Lemma contains_wrap (s pat l r : jsstring) :
  JS.contains s pat -> JS.contains (l ++ s ++ r) pat.
Proof.
  intros (pre & post & ->). exists (l ++ pre), (post ++ r).
  by rewrite <- !app_assoc.
Qed.

Lemma extractSnippet_contains (text pre pat post : jsstring) :
  text = pre ++ pat ++ post -> JS.len pat <= 75 ->
  JS.contains (SearchWorker.extractSnippet text (JS.len pre) 150) pat.
Proof.
  intros Htext Hlen. unfold SearchWorker.extractSnippet.
  change (150 / 2) with 75.
  assert (JS.len text = JS.len pre + JS.len pat + JS.len post) as Hl.
  { rewrite Htext. unfold JS.len. rewrite !length_app. lia. }
  assert (0 <= JS.len pre /\ 0 <= JS.len post) as [? ?] by (unfold JS.len; lia).
  assert (JS.contains
            (JS.substring text (Z.max 0 (JS.len pre - 75))
               (Z.min (JS.len text) (JS.len pre + 75))) pat) as Hc.
  { apply (substring_contains text pre pat post); [done | lia | lia]. }
  destruct (0 <? _), (_ <? JS.len text).
  - rewrite <- app_assoc. by apply contains_wrap.
  - apply (contains_wrap _ _ (JS.lit "...") []) in Hc. by rewrite app_nil_r in Hc.
  - by apply (contains_wrap _ _ []).
  - done.
Qed.

(** X28: in exact mode the snippet of a result shows the query: a query
    of at most 75 code units occurs in the snippet of every result of the
    worker. *)
Theorem worker_exact_snippet_shows_query (query : jsstring)
    (pages : list Page.t) (books : list BookRef.t) :
  JS.len query <= 75 ->
  Forall (fun r => JS.contains (SearchResult.snippet r) query)
    (SearchWorker.performSearch query exact pages books).
Proof.
  intros Hlen. apply List.Forall_forall. intros r Hr.
  unfold SearchWorker.performSearch in Hr.
  apply List.in_flat_map in Hr as (page & Hpage & Hr).
  apply worker_searchPage_In in Hr as (textParts & Hparse & Hne & ->).
  cbn [SearchResult.snippet].
  destruct (indexOf_sound_at _ _ _ _ eq_refl Hne) as (pre & post & Htext & Hpre).
  rewrite <- Hpre. cbn [asSearched] in Htext.
  by apply (extractSnippet_contains _ pre query post).
Qed.

Lemma replaceFirst_absent (s pat repl : jsstring) :
  ~ JS.contains s pat -> JS.replaceFirst s pat repl = s.
Proof.
  intros Hc. unfold JS.replaceFirst.
  destruct (Z.eqb_spec (JS.indexOf s pat 0) (-1)) as [E|E]; [done|].
  exfalso. apply Hc. by apply (indexOf_sound s pat 0 _ eq_refl).
Qed.

Lemma suffix_en_first (id pre post : jsstring) :
  id ++ JS.lit "_en" = pre ++ JS.lit "_en" ++ post ->
  ~ JS.contains id (JS.lit "_en") -> (length id <= length pre)%nat.
Proof.
  intros Heq Hc. destruct (decide (length id <= length pre)%nat) as [|Hlt]; [done|].
  exfalso. apply (f_equal length) in Heq as Hlen. rewrite !length_app in Hlen.
  change (length (JS.lit "_en")) with 3%nat in Hlen.
  destruct (decide (3 <= length post)%nat) as [Hlong|Hshort].
  - apply Hc. exists pre, (take (length post - 3) post).
    rewrite <- (take_drop (length post - 3) post) in Heq.
    rewrite !app_assoc in Heq. apply app_inj_2 in Heq as [-> _].
    + by rewrite <- !app_assoc.
    + rewrite length_drop. change (length (JS.lit "_en")) with 3%nat. lia.
  - apply (f_equal (@rev N)) in Heq. rewrite !rev_app_distr in Heq.
    change (rev (JS.lit "_en")) with [0x6E; 0x65; 0x5F]%N in Heq.
    destruct post as [|x [|y [|z post]]]; simpl in Hlen, Hshort; [lia | | | lia];
      simpl in Heq; discriminate.
Qed.

Lemma replaceFirst_suffix_en (id : jsstring) :
  ~ JS.contains id (JS.lit "_en") ->
  JS.replaceFirst (id ++ JS.lit "_en") (JS.lit "_en") [] = id.
Proof.
  intros Hc. unfold JS.replaceFirst.
  set (i := JS.indexOf (id ++ JS.lit "_en") (JS.lit "_en") 0).
  assert (i <= JS.len id) as Hle.
  { subst i. rewrite <- (app_nil_r (JS.lit "_en")) at 1.
    apply (indexOf_zero_least (JS.lit "_en") id []). }
  assert (i <> -1) as Hne.
  { apply indexOf_zero_complete. exists id, []. by rewrite app_nil_r. }
  destruct (indexOf_sound_at _ _ _ _ eq_refl Hne) as (pre & post & Heq & Hpre).
  fold i in Hpre. pose proof (suffix_en_first _ _ _ Heq Hc) as Hge.
  assert (Z.to_nat i = length id) as Hi by (unfold JS.len in *; lia).
  apply Z.eqb_neq in Hne as ->. rewrite Hi.
  rewrite take_app_length, drop_ge; [by rewrite !app_nil_r|].
  rewrite length_app. lia.
Qed.

(** X29: a result carries the title of the book that its page belongs to,
    the translation's results the title of the book translated: when the
    book id of the page holds no [_en] the title is looked up under that
    id, and when it is such an id followed by [_en] the title is looked up
    under the id without the suffix. *)
Theorem worker_title_of_translation (query : jsstring) (mode : SearchMode)
    (pages : list Page.t) (books : list BookRef.t) :
  Forall (fun r =>
      (~ JS.contains (SearchResult.bookId r) (JS.lit "_en") ->
       SearchResult.bookTitle r = titleUnder books (SearchResult.bookId r))
      /\ forall id, SearchResult.bookId r = id ++ JS.lit "_en" ->
                    ~ JS.contains id (JS.lit "_en") ->
                    SearchResult.bookTitle r = titleUnder books id)
    (SearchWorker.performSearch query mode pages books).
Proof.
  apply List.Forall_forall. intros r Hr.
  unfold SearchWorker.performSearch in Hr.
  apply List.in_flat_map in Hr as (page & Hpage & Hr).
  apply worker_searchPage_In in Hr as (textParts & Hparse & Hne & ->).
  cbn [SearchResult.bookId SearchResult.bookTitle]. unfold titleUnder. split.
  - intros Hc. by rewrite replaceFirst_absent.
  - intros id -> Hc. by rewrite replaceFirst_suffix_en.
Qed.

End WorkerFacts.

Lemma worker_exact_snippet_shows_query_witness :
  JS.len (JS.lit "نور") <= 75
  /\ length (SearchWorker.performSearch (JS.lit "نور") exact
               Examples.scenarioPages []) = 1%nat
  /\ Forall (fun r => JS.contains (SearchResult.snippet r) (JS.lit "نور"))
       (SearchWorker.performSearch (JS.lit "نور") exact Examples.scenarioPages []).
Proof.
  assert (JS.len (JS.lit "نور") <= 75) as Hlen by (vm_compute; discriminate).
  split; [exact Hlen|]. split; [vm_compute; reflexivity|].
  exact (worker_exact_snippet_shows_query (JS.lit "نور") Examples.scenarioPages []
           Hlen).
Defined.

Lemma worker_title_of_translation_witness :
  Forall (fun r => SearchResult.bookTitle r = JS.lit "Book One")
    (SearchWorker.performSearch (JS.lit "light") exact [Examples.translated]
       [BookRef.mk Examples.b1 (JS.lit "Book One")])
  /\ length (SearchWorker.performSearch (JS.lit "light") exact [Examples.translated]
               [BookRef.mk Examples.b1 (JS.lit "Book One")]) = 1%nat.
Proof.
  split; [|vm_compute; reflexivity].
  pose proof (worker_title_of_translation (JS.lit "light") exact
                [Examples.translated] [BookRef.mk Examples.b1 (JS.lit "Book One")])
    as Hall.
  rewrite List.Forall_forall in Hall. apply List.Forall_forall. intros r Hr.
  destruct (Hall r Hr) as [_ Htitle]. rewrite (Htitle Examples.b1).
  - vm_compute. reflexivity.
  - vm_compute in Hr. destruct Hr as [<- | []]. vm_compute. reflexivity.
  - intros (pre & post & Heq). apply (f_equal length) in Heq.
    rewrite !length_app in Heq.
    change (length (JS.lit "_en")) with 3%nat in Heq.
    change (length Examples.b1) with 2%nat in Heq. lia.
Defined.

(** ** The cache of the search hook *)

Lemma hook_mapGet_mapSet_same k v c :
  SearchHook.mapGet k (SearchHook.mapSet k v c) = Some v.
Proof.
  induction c as [|[k' v'] c IH]; simpl.
  - by rewrite bool_decide_eq_true_2.
  - destruct (bool_decide (k' = k)) eqn:E; simpl.
    + by rewrite bool_decide_eq_true_2.
    + by rewrite E.
Qed.

Lemma hook_getFromCache_addToCache query mode rs later now c :
  now - later < SearchHook.CACHE_TTL ->
  SearchHook.getFromCache query mode now (SearchHook.addToCache query mode rs later c)
  = Some rs.
Proof.
  intros Hfresh. unfold SearchHook.getFromCache, SearchHook.addToCache. cbv zeta.
  rewrite hook_mapGet_mapSet_same. cbn [SearchHook.timestamp SearchHook.results].
  by apply Z.ltb_lt in Hfresh as ->.
Qed.

(** X30: the hook answers a repeated search from its cache without a look
    at the library: once a search has been run and cached, a search for
    the same query and mode within the time to live returns the results of
    the first one and leaves the cache as it is, whatever pages and books
    it is given and whoever would run the scan. *)
Theorem hook_search_ignores_library `{JSONRuntime} (worker worker' : bool)
    (query : jsstring) (mode : SearchMode)
    (pages pages' : list Page.t) (books books' : list BookRef.t)
    (now later now' later' : Z) (c : SearchHook.Cache) :
  SearchHook.getFromCache query mode now c = None ->
  now' - later < SearchHook.CACHE_TTL ->
  let first := SearchHook.search worker query mode pages books now later c in
  first.1 = SearchWorker.performSearch query mode pages books
  /\ SearchHook.search worker' query mode pages' books' now' later' first.2
     = (first.1, first.2).
Proof.
  intros Hmiss Hfresh first.
  assert (UseSearchWorker.performSearchMainThread query mode pages books
          = SearchWorker.performSearch query mode pages books) as Hsame.
  { unfold SearchWorker.performSearch, UseSearchWorker.performSearchMainThread,
      SearchWorker.searchPage, SearchWorker.extractSnippet,
      SearchWorker.normalizeArabic, App.isAlefVariant, App.ARABIC_DIACRITICS.
    change (150 / 2) with 75. reflexivity. }
  assert (first
          = (SearchWorker.performSearch query mode pages books,
             SearchHook.addToCache query mode
               (SearchWorker.performSearch query mode pages books) later c))
    as ->.
  { subst first. unfold SearchHook.search. rewrite Hmiss.
    destruct worker; [done | by rewrite Hsame]. }
  cbn [fst snd]. split; [done|].
  unfold SearchHook.search.
  by rewrite (hook_getFromCache_addToCache _ _ _ _ _ _ Hfresh).
Qed.

Lemma hook_search_ignores_library_witness :
  let first :=
    SearchHook.search true (JS.lit "نور") exact Examples.scenarioPages [] 5 6 [] in
  length first.1 = 1%nat
  /\ SearchHook.search true (JS.lit "نور") exact [] [] 1000 1001 first.2
     = (first.1, first.2).
Proof.
  cbv zeta.
  assert (SearchHook.getFromCache (JS.lit "نور") exact 5 [] = None) as Hmiss
    by reflexivity.
  assert (1000 - 6 < SearchHook.CACHE_TTL) as Hfresh by (vm_compute; reflexivity).
  split; [vm_compute; reflexivity|].
  exact (proj2 (hook_search_ignores_library true true (JS.lit "نور") exact
                  Examples.scenarioPages [] [] [] 5 6 1000 1001 [] Hmiss Hfresh)).
Defined.
